(** * Kibana: entity schemas, authentications query, ES|QL autocomplete

    A shallow embedding of the logic of these sources:

    - the OpenAPI contract of [DeleteExceptionList] (a YAML document, kept
      as data);
    - [durationSchema] and [metadataSchema] of the entity-definition zod
      schemas, together with the fragment of regular expressions and of
      zod combinators they use;
    - [buildQuery] of the authentications search strategy, over a JSON
      value type and lodash's [merge];
    - [getQuotedText], [buildFieldsDefinitions] and
      [getCompatibleFunctionDefinition] of the ES|QL autocomplete
      factories.

    Conventions.  A JavaScript string is a [string] of bytes (its UTF-8
    encoding): every operation used here ([startsWith], [endsWith],
    [length === 0], template concatenation, the character classes [\d]
    and [[m|d|s|h]]) only looks at ASCII characters or compares whole
    strings, so the encoding does not change any outcome.  A JavaScript
    number is a rational or one of NaN, +Infinity, -Infinity; the
    operations that compute a number ([+], [parseInt]) round their exact
    result to the nearest double, as IEEE 754 defines them, so every
    number they return is a double.  The two zeros are not told apart. *)

From Stdlib Require Import ZArith QArith Qcanon Ascii.
From stdpp Require Import base strings list sorting.

Local Open Scope stdpp_scope.
Local Set Warnings "-register-all".

(** [String.append] is declared [simpl never] by stdpp; this unfolds one
    layer of it on constructor-headed arguments. *)
Ltac str_simpl :=
  repeat (progress (unfold String.append; fold String.append)).

(** ** JavaScript string primitives *)

Module JsString.

(** The double-quote character, code 34. *)
Definition dquote_char : ascii := "034"%char.
Definition dquote : string := String dquote_char EmptyString.

(** [s.startsWith(p)] *)
Definition startsWith (s p : string) : bool := String.prefix p s.

(** [s.endsWith(p)]: some suffix of [s] is [p]. *)
Fixpoint endsWith (s p : string) : bool :=
  String.eqb s p ||
  match s with
  | EmptyString => false
  | String _ s' => endsWith s' p
  end.

(** [s.length === 0] *)
Definition is_empty (s : string) : bool :=
  match s with EmptyString => true | String _ _ => false end.

(** Truthiness of a string: only the empty string is falsy. *)
Definition truthy (s : string) : bool := negb (is_empty s).

Lemma append_assoc (a b c : string) : (a +:+ b) +:+ c = a +:+ (b +:+ c).
Proof. induction a as [|x a IH]; str_simpl; [reflexivity | by rewrite IH]. Qed.

Lemma startsWith_append (p s : string) : startsWith (p +:+ s) p = true.
Proof.
  unfold startsWith. induction p as [|c p IH]; str_simpl; simpl.
  - by destruct s.
  - by destruct (ascii_dec c c).
Qed.

Lemma endsWith_refl (p : string) : endsWith p p = true.
Proof.
  destruct p as [|c p]; [done|].
  change ((String c p =? String c p)%string || endsWith p (String c p) = true).
  by rewrite String.eqb_refl.
Qed.

Lemma endsWith_append (a p : string) : endsWith (a +:+ p) p = true.
Proof.
  induction a as [|c a IH]; str_simpl; simpl.
  - apply endsWith_refl.
  - rewrite IH. apply orb_true_r.
Qed.

Lemma is_empty_true (s : string) : is_empty s = true ↔ s = EmptyString.
Proof. destruct s; simpl; split; congruence. Qed.

End JsString.

(** ** ES|QL autocomplete: quoting *)

Module Quoting.
Import JsString.

(** [getQuotedText(text)]:
    [text.startsWith(dq) && text.endsWith(dq) ? text : dq + text + dq]
    where [dq] is the one-character string holding a double quote. *)
Definition getQuotedText (text : string) : string :=
  if startsWith text dquote && endsWith text dquote
  then text
  else dquote +:+ text +:+ dquote.

Lemma getQuotedText_delimited (t : string) :
  startsWith (getQuotedText t) dquote = true ∧
  endsWith (getQuotedText t) dquote = true.
Proof.
  unfold getQuotedText.
  destruct (startsWith t dquote && endsWith t dquote) eqn:E.
  - by apply andb_true_iff in E.
  - split.
    + apply startsWith_append.
    + rewrite <- append_assoc. apply endsWith_append.
Qed.

Lemma getQuotedText_fixed (t : string) :
  startsWith t dquote = true → endsWith t dquote = true →
  getQuotedText t = t.
Proof. intros H1 H2. unfold getQuotedText. by rewrite H1, H2. Qed.

Example getQuotedText_plain :
  getQuotedText "logs-*" = dquote +:+ "logs-*" +:+ dquote.
Proof. reflexivity. Qed.

Example getQuotedText_single_quote_char : getQuotedText dquote = dquote.
Proof. reflexivity. Qed.

Example getQuotedText_empty : getQuotedText EmptyString = dquote +:+ dquote.
Proof. reflexivity. Qed.

End Quoting.


(** ** The [DeleteExceptionList] OpenAPI contract *)

Module OpenApi.
Import JsString.

(** A schema object of the document: a [$ref] (with the sibling [default]
    when one is written next to it) or a [oneOf] list. *)
Inductive schema :=
| Ref (target : string) (default : option string)
| OneOf (alternatives : list schema).

(** An entry of [parameters].  [required] is [Some b] when the key is
    written in the document and [None] when it is left out. *)
Record parameter := {
  param_name : string;
  param_in : string;
  param_required : option bool;
  param_description : option string;
  param_schema : schema;
}.

(** An entry of [responses]: the status code, its description and the
    media types of [content] with their schemas. *)
Record response := {
  resp_status : nat;
  resp_description : string;
  resp_content : list (string * schema);
}.

Record operation := {
  op_path : string;
  op_method : string;
  op_labels : list string;
  op_operationId : string;
  op_codegen_enabled : bool;
  op_summary : string;
  op_tags : list string;
  op_parameters : list parameter;
  op_responses : list response;
}.

Definition common_model : string :=
  "../model/exception_list_common.schema.yaml#/components/schemas/".
Definition error_responses : string :=
  "../../../kbn-openapi-common/schemas/error_responses.schema.yaml#/components/schemas/".

Definition PlatformErrorResponse : schema :=
  Ref (error_responses +:+ "PlatformErrorResponse") None.
Definition SiemErrorResponse : schema :=
  Ref (error_responses +:+ "SiemErrorResponse") None.

Definition either_id : string := "Either `id` or `list_id` must be specified".

Definition json_body (s : schema) : list (string * schema) :=
  [("application/json", s)].

(** The document, key by key. *)
Definition DeleteExceptionList : operation := {|
  op_path := "/api/exception_lists";
  op_method := "delete";
  op_labels := ["serverless"; "ess"];
  op_operationId := "DeleteExceptionList";
  op_codegen_enabled := true;
  op_summary := "Deletes an exception list";
  op_tags := ["Exceptions API"];
  op_parameters := [
    {| param_name := "id"; param_in := "query";
       param_required := Some false;
       param_description := Some either_id;
       param_schema := Ref (common_model +:+ "ExceptionListId") None |};
    {| param_name := "list_id"; param_in := "query";
       param_required := Some false;
       param_description := Some either_id;
       param_schema := Ref (common_model +:+ "ExceptionListHumanId") None |};
    {| param_name := "namespace_type"; param_in := "query";
       param_required := Some false;
       param_description := None;
       param_schema :=
         Ref (common_model +:+ "ExceptionNamespaceType") (Some "single") |}
  ];
  op_responses := [
    {| resp_status := 200; resp_description := "Successful response";
       resp_content := json_body (Ref (common_model +:+ "ExceptionList") None) |};
    {| resp_status := 400; resp_description := "Invalid input data response";
       resp_content :=
         json_body (OneOf [PlatformErrorResponse; SiemErrorResponse]) |};
    {| resp_status := 401;
       resp_description := "Unsuccessful authentication response";
       resp_content := json_body PlatformErrorResponse |};
    {| resp_status := 403;
       resp_description := "Not enough privileges response";
       resp_content := json_body PlatformErrorResponse |};
    {| resp_status := 404;
       resp_description := "Exception list not found response";
       resp_content := json_body SiemErrorResponse |};
    {| resp_status := 500;
       resp_description := "Internal server error response";
       resp_content := json_body SiemErrorResponse |}
  ];
|}.

(** Lookups in the document. *)
Definition find_parameter (op : operation) (n : string) : option parameter :=
  List.find (fun p => String.eqb (param_name p) n) (op_parameters op).

Definition find_response (op : operation) (code : nat) : option response :=
  List.find (fun r => Nat.eqb (resp_status r) code) (op_responses op).

Definition declared_statuses (op : operation) : list nat :=
  resp_status <$> op_responses op.

Definition schema_default (s : schema) : option string :=
  match s with Ref _ d => d | OneOf _ => None end.

(** The component a [$ref] points at: the text after the last slash. *)
Fixpoint last_segment_go (acc s : string) : string :=
  match s with
  | EmptyString => String.rev acc
  | String c s' =>
      if Ascii.eqb c "/"%char then last_segment_go EmptyString s'
      else last_segment_go (String c acc) s'
  end.
Definition ref_component (target : string) : string :=
  last_segment_go EmptyString target.

(** A schema that is one of the two shared error responses, or a [oneOf]
    of them. *)
Definition is_error_ref (s : schema) : bool :=
  match s with
  | Ref t _ =>
      String.eqb (ref_component t) "PlatformErrorResponse" ||
      String.eqb (ref_component t) "SiemErrorResponse"
  | OneOf _ => false
  end.

Definition is_error_schema (s : schema) : bool :=
  match s with
  | Ref _ _ => is_error_ref s
  | OneOf alts => negb (Nat.eqb (length alts) 0) && forallb is_error_ref alts
  end.

(** The response carries exactly one body, of media type JSON, accepted
    by [ok]. *)
Definition json_response (ok : schema → bool) (r : response) : bool :=
  match resp_content r with
  | [(media, s)] => String.eqb media "application/json" && ok s
  | _ => false
  end.

Definition is_ref_to (component : string) (s : schema) : bool :=
  match s with
  | Ref t _ => String.eqb (ref_component t) component
  | OneOf _ => false
  end.

End OpenApi.


(** ** JavaScript numbers and JSON values *)

Module JsNumber.

(** A number: NaN, the two infinities, or a rational.  The doubles are
    the rationals that [round] below keeps; a number that is given (a
    literal, a field of the input) is taken as it is written. *)
Inductive number :=
| NaN
| NegInf
| Fin (q : Qc)
| PosInf.

Definition of_Z (z : Z) : number := Fin (Q2Qc (inject_Z z)).

(** [a < b]: false as soon as one side is NaN. *)
Definition ltb (a b : number) : bool :=
  match a, b with
  | NaN, _ | _, NaN => false
  | NegInf, NegInf => false
  | NegInf, _ => true
  | _, NegInf => false
  | PosInf, _ => false
  | Fin _, PosInf => true
  | Fin x, Fin y => match (x ?= y)%Qc with Lt => true | _ => false end
  end.

(** [a >= b]: false as soon as one side is NaN. *)
Definition geb (a b : number) : bool :=
  match a, b with
  | NaN, _ | _, NaN => false
  | _, NegInf => true
  | NegInf, _ => false
  | PosInf, _ => true
  | Fin _, PosInf => false
  | Fin x, Fin y => match (x ?= y)%Qc with Lt => false | _ => true end
  end.

(** *** Rounding to a double

    A finite double is [m * 2^e] with [|m| < 2^53] and [-1074 <= e <= 971].
    [round] gives the double nearest to a rational, the one with an even
    [m] when two are equally near, and an infinity from [2^1024 - 2^970]
    on. *)

(** [n / d / 2^e] as a fraction, for [0 < d]. *)
Definition scale2 (n d e : Z) : Z * Z :=
  if (0 <=? e)%Z then (n, (d * 2 ^ e)%Z) else ((n * 2 ^ (- e))%Z, d).

(** [floor (log2 (n / d))], for [0 < n] and [0 < d]. *)
Definition floor_log2 (n d : Z) : Z :=
  let k := (Z.log2 n - Z.log2 d)%Z in
  let '(a, b) := scale2 n d k in
  if (a <? b)%Z then (k - 1)%Z else k.

(** The integer nearest to [a / b], the even one of two that are equally
    near, for [0 <= a] and [0 < b]. *)
Definition nearest_even (a b : Z) : Z :=
  let m := (a / b)%Z in
  match (2 * (a mod b) ?= b)%Z with
  | Lt => m
  | Gt => (m + 1)%Z
  | Eq => if Z.even m then m else (m + 1)%Z
  end.

(** [m * 2^e] as a rational. *)
Definition dyadic (m e : Z) : Qc :=
  Q2Qc (if (0 <=? e)%Z then inject_Z (m * 2 ^ e)
        else Qmake m (Z.to_pos (2 ^ (- e)))).

(** The double nearest to [n / d] ([0 < n], [0 < d]), negated when [neg]:
    the exponent [e] leaves 53 bits above the unit, and is never under
    that of the subnormals. *)
Definition round_pos (neg : bool) (n d : Z) : number :=
  let e := Z.max (floor_log2 n d - 52) (-1074) in
  let '(a, b) := scale2 n d e in
  let m := nearest_even a b in
  if (1024 <=? Z.log2 m + e)%Z then (if neg then NegInf else PosInf)
  else Fin (dyadic (if neg then (- m)%Z else m) e).

Definition round (q : Qc) : number :=
  match Qnum q with
  | Z0 => Fin q
  | Zpos n => round_pos false (Zpos n) (Zpos (Qden q))
  | Zneg n => round_pos true (Zpos n) (Zpos (Qden q))
  end.

(** [a + b]: the exact sum, rounded. *)
Definition add (a b : number) : number :=
  match a, b with
  | NaN, _ | _, NaN => NaN
  | PosInf, NegInf | NegInf, PosInf => NaN
  | PosInf, _ | _, PosInf => PosInf
  | NegInf, _ | _, NegInf => NegInf
  | Fin x, Fin y => round (x + y)%Qc
  end.

Definition is_nan (a : number) : bool :=
  match a with NaN => true | _ => false end.

Example round_above_2_53 :
  round (Q2Qc (inject_Z (2 ^ 53 + 1))) = of_Z (2 ^ 53) ∧
  round (Q2Qc (inject_Z (2 ^ 53 + 2))) = of_Z (2 ^ 53 + 2) ∧
  round (Q2Qc (inject_Z (2 ^ 53 + 3))) = of_Z (2 ^ 53 + 4).
Proof. repeat split; vm_compute; f_equal; apply Qc_is_canon; reflexivity. Qed.

Example round_tenth :
  round (Q2Qc (1 # 10)) = Fin (Q2Qc (3602879701896397 # 36028797018963968)).
Proof. vm_compute; f_equal; apply Qc_is_canon; reflexivity. Qed.

Example round_overflow :
  round (Q2Qc (inject_Z (2 ^ 1024 - 2 ^ 971))) = of_Z (2 ^ 1024 - 2 ^ 971) ∧
  round (Q2Qc (inject_Z (2 ^ 1024 - 2 ^ 970 - 1))) = of_Z (2 ^ 1024 - 2 ^ 971) ∧
  round (Q2Qc (inject_Z (2 ^ 1024 - 2 ^ 970))) = PosInf ∧
  round (Q2Qc (inject_Z (- 10 ^ 400))) = NegInf.
Proof.
  repeat split; vm_compute; try reflexivity; f_equal; apply Qc_is_canon;
    reflexivity.
Qed.

Example round_subnormal :
  round (Q2Qc (1 # Z.to_pos (2 ^ 1075))) = of_Z 0 ∧
  round (Q2Qc (3 # Z.to_pos (2 ^ 1075))) = Fin (Q2Qc (1 # Z.to_pos (2 ^ 1073))).
Proof. repeat split; vm_compute; f_equal; apply Qc_is_canon; reflexivity. Qed.

Example add_at_2_53 : add (of_Z (2 ^ 53)) (of_Z 1) = of_Z (2 ^ 53).
Proof. vm_compute; f_equal; apply Qc_is_canon; reflexivity. Qed.

Lemma this_of_Z (z : Z) : this (Q2Qc (inject_Z z)) = inject_Z z.
Proof.
  unfold Q2Qc, this. apply Qred_identity. simpl. apply Z.gcd_1_r.
Qed.

Lemma nearest_even_exact (a : Z) : nearest_even a 1 = a.
Proof.
  unfold nearest_even. rewrite Z.mod_1_r, Z.div_1_r. reflexivity.
Qed.

Lemma dyadic_exact (n e : Z) :
  (e ≤ 0)%Z → dyadic (n * 2 ^ (- e)) e = Q2Qc (inject_Z n).
Proof.
  intros He. unfold dyadic.
  destruct (Z.leb_spec 0 e) as [H0|H0].
  - assert (e = 0%Z) as -> by lia. simpl. f_equal. f_equal. lia.
  - apply Q2Qc_eq_iff. unfold Qeq, inject_Z. simpl Qnum. simpl Qden.
    rewrite Z2Pos.id by (apply Z.pow_pos_nonneg; lia). lia.
Qed.

Lemma floor_log2_integer (n : Z) : (0 < n)%Z → floor_log2 n 1 = Z.log2 n.
Proof.
  intros Hpos. pose proof (Z.log2_spec n Hpos) as [Hlo _].
  pose proof (Z.log2_nonneg n).
  unfold floor_log2, scale2. change (Z.log2 1) with 0%Z. rewrite Z.sub_0_r.
  destruct (Z.leb_spec 0 (Z.log2 n)) as [_|?]; [|lia].
  destruct (Z.ltb_spec n (1 * 2 ^ Z.log2 n)) as [?|_]; [lia|reflexivity].
Qed.

Lemma round_pos_integer (neg : bool) (n : Z) :
  (0 < n ≤ 2 ^ 53)%Z →
  round_pos neg n 1 = of_Z (if neg then (- n)%Z else n).
Proof.
  intros [Hpos Hle].
  destruct (Z.eq_dec n (2 ^ 53)%Z) as [->|Hne].
  { destruct neg; vm_compute; f_equal; apply Qc_is_canon; reflexivity. }
  assert (Hlog : (0 ≤ Z.log2 n ≤ 52)%Z).
  { split; [apply Z.log2_nonneg|].
    assert (Z.log2 n < 53)%Z; [|lia]. apply Z.log2_lt_pow2; [lia|].
    apply Z.le_neq. split; assumption. }
  unfold round_pos. rewrite floor_log2_integer by assumption.
  rewrite Z.max_l by lia.
  unfold scale2.
  destruct (Z.leb_spec 0 (Z.log2 n - 52)) as [H0|H0].
  - assert (Z.log2 n - 52 = 0)%Z as -> by lia.
    change (1 * 2 ^ 0)%Z with 1%Z. rewrite nearest_even_exact.
    destruct (Z.leb_spec 1024 (Z.log2 n + 0)) as [?|_]; [lia|].
    unfold of_Z. f_equal.
    destruct neg;
      [rewrite <- (dyadic_exact (- n) 0) by lia
      |rewrite <- (dyadic_exact n 0) by lia];
      f_equal; simpl; lia.
  - rewrite nearest_even_exact.
    rewrite Z.log2_mul_pow2 by lia.
    destruct (Z.leb_spec 1024 (- (Z.log2 n - 52) + Z.log2 n + (Z.log2 n - 52)))
      as [?|_]; [lia|].
    unfold of_Z. f_equal.
    destruct neg.
    + rewrite <- Z.mul_opp_l. apply dyadic_exact. lia.
    + apply dyadic_exact. lia.
Qed.

(** Every integer of at most 53 bits is a double: rounding keeps it. *)
Lemma round_integer (z : Z) :
  (- 2 ^ 53 ≤ z ≤ 2 ^ 53)%Z → round (Q2Qc (inject_Z z)) = of_Z z.
Proof.
  intros Hz. unfold round. rewrite this_of_Z.
  destruct z as [|p|p]; simpl Qnum; simpl Qden.
  - reflexivity.
  - apply (round_pos_integer false). lia.
  - change (Z.neg p) with (- Z.pos p)%Z. apply (round_pos_integer true). lia.
Qed.

(** The sum of two integers is exact as long as it has at most 53 bits. *)
Lemma add_integers (a b : Z) :
  (- 2 ^ 53 ≤ a + b ≤ 2 ^ 53)%Z → add (of_Z a) (of_Z b) = of_Z (a + b).
Proof.
  intros H. unfold of_Z at 1 2. unfold add.
  replace (Q2Qc (inject_Z a) + Q2Qc (inject_Z b))%Qc
    with (Q2Qc (inject_Z (a + b))).
  - apply round_integer, H.
  - unfold Qcplus. apply Q2Qc_eq_iff. rewrite !this_of_Z.
    rewrite inject_Z_plus. reflexivity.
Qed.

End JsNumber.

Module Json.
Import JsNumber.

(** A JavaScript value of the JSON kind; an object keeps its entries in
    insertion order. *)
Inductive value :=
| JUndefined
| JNull
| JBool (b : bool)
| JNum (n : number)
| JStr (s : string)
| JArr (items : list value)
| JObj (fields : list (string * value)).

(** [o[k]], [undefined] when the key is absent. *)
Fixpoint get (fields : list (string * value)) (k : string) : value :=
  match fields with
  | [] => JUndefined
  | (k', v) :: rest => if String.eqb k' k then v else get rest k
  end.

(** [k in o] *)
Fixpoint has (fields : list (string * value)) (k : string) : bool :=
  match fields with
  | [] => false
  | (k', _) :: rest => String.eqb k' k || has rest k
  end.

(** [o[k] = v] on an ordinary object: an existing key keeps its place, a
    new key goes last. *)
Fixpoint set (fields : list (string * value)) (k : string) (v : value)
  : list (string * value) :=
  match fields with
  | [] => [(k, v)]
  | (k', v') :: rest =>
      if String.eqb k' k then (k', v) :: rest else (k', v') :: set rest k v
  end.

(** [delete o[k]] *)
Fixpoint remove (fields : list (string * value)) (k : string)
  : list (string * value) :=
  match fields with
  | [] => []
  | (k', v') :: rest =>
      if String.eqb k' k then remove rest k else (k', v') :: remove rest k
  end.

(** The value found by following [path] through nested objects. *)
Fixpoint get_path (v : value) (path : list string) : value :=
  match path with
  | [] => v
  | k :: path' =>
      match v with
      | JObj fields => get_path (get fields k) path'
      | _ => JUndefined
      end
  end.

(** [v] with the property at the end of [path] deleted. *)
Fixpoint remove_path (v : value) (path : list string) : value :=
  match path, v with
  | [k], JObj fields => JObj (remove fields k)
  | k :: path', JObj fields =>
      if has fields k
      then JObj (set fields k (remove_path (get fields k) path'))
      else v
  | _, _ => v
  end.

(** Whether the property at the end of [path] exists. *)
Fixpoint has_path (v : value) (path : list string) : bool :=
  match path, v with
  | [k], JObj fields => has fields k
  | k :: path', JObj fields => has_path (get fields k) path'
  | _, _ => false
  end.

End Json.


(** ** Regular expressions: the fragment used by the schemas

    A backtracking matcher in continuation-passing style for anchors,
    character classes, a greedy [+] on a class, concatenation and
    numbered capture groups.  [exec] is [RegExp.prototype.exec] (and so
    [String.prototype.match]) for an expression without flags: the match
    is tried at every start index from 0 and the first success wins. *)

Module Regex.
Import JsString.

Inductive charclass :=
| Digit
| Chars (cs : list ascii).

Definition is_digit (c : ascii) : bool :=
  (48 <=? N_of_ascii c)%N && (N_of_ascii c <=? 57)%N.

Definition in_class (cl : charclass) (c : ascii) : bool :=
  match cl with
  | Digit => is_digit c
  | Chars cs => existsb (Ascii.eqb c) cs
  end.

Inductive regex :=
| Bol
| Eol
| Class (cl : charclass)
| Plus (cl : charclass)
| Cat (r1 r2 : regex)
| Group (g : nat) (r : regex).

Definition captures := list (option string).

(** What is left to match: the index reached, the rest of the input and
    the captures so far are handed on; the answer is the index where the
    whole match ends and the final captures. *)
Definition cont := nat → string → captures → option (nat * captures).

(** [cl+], greedy: take one character of the class, try to take more,
    and fall back to the continuation when taking more fails. *)
Fixpoint plus_loop (cl : charclass) (i : nat) (s : string) (caps : captures)
    (k : cont) : option (nat * captures) :=
  match s with
  | EmptyString => None
  | String c s' =>
      if in_class cl c then
        match plus_loop cl (S i) s' caps k with
        | Some r => Some r
        | None => k (S i) s' caps
        end
      else None
  end.

Fixpoint run (r : regex) (i : nat) (s : string) (caps : captures) (k : cont)
  : option (nat * captures) :=
  match r with
  | Bol => if Nat.eqb i 0 then k i s caps else None
  | Eol => if is_empty s then k i s caps else None
  | Class cl =>
      match s with
      | EmptyString => None
      | String c s' => if in_class cl c then k (S i) s' caps else None
      end
  | Plus cl => plus_loop cl i s caps k
  | Cat r1 r2 => run r1 i s caps (fun i' s' caps' => run r2 i' s' caps' k)
  | Group g r1 =>
      run r1 i s caps
        (fun i' s' caps' =>
           k i' s' (<[g := Some (String.substring 0 (i' - i) s)]> caps'))
  end.

Fixpoint group_count (r : regex) : nat :=
  match r with
  | Cat r1 r2 => group_count r1 + group_count r2
  | Group _ r1 => S (group_count r1)
  | _ => 0
  end.

Definition accept : cont := fun i _ caps => Some (i, caps).

(** One attempt at start index [i], where [s] is the input from [i] on. *)
Definition attempt (r : regex) (i : nat) (s : string) : option captures :=
  match run r i s (replicate (S (group_count r)) None) accept with
  | Some (e, caps) => Some (<[0 := Some (String.substring 0 (e - i) s)]> caps)
  | None => None
  end.

Fixpoint exec_from (r : regex) (i : nat) (s : string) : option captures :=
  match attempt r i s with
  | Some m => Some m
  | None =>
      match s with
      | EmptyString => None
      | String _ s' => exec_from r (S i) s'
      end
  end.

(** [re.exec(s)] and [s.match(re)]: the array of the whole match and the
    groups, or [None] for [null]. *)
Definition exec (r : regex) (s : string) : option captures := exec_from r 0 s.

(** [re.test(s)] *)
Definition test (r : regex) (s : string) : bool :=
  match exec r s with Some _ => true | None => false end.

(** All characters of [s] are in the class. *)
Fixpoint all_in (cl : charclass) (s : string) : bool :=
  match s with
  | EmptyString => true
  | String c s' => in_class cl c && all_in cl s'
  end.

Lemma substring_append_l (a b : string) :
  String.substring 0 (String.length a) (a +:+ b) = a.
Proof.
  induction a as [|c a IH]; str_simpl; simpl.
  - by destruct b.
  - by rewrite IH.
Qed.

Lemma substring_all (a : string) : String.substring 0 (String.length a) a = a.
Proof. induction a as [|c a IH]; simpl; [done | by rewrite IH]. Qed.

Lemma length_append (a b : string) :
  String.length (a +:+ b) = String.length a + String.length b.
Proof. induction a as [|c a IH]; str_simpl; simpl; [done | by rewrite IH]. Qed.

(** A successful [cl+] consumed a non-empty run of the class and then the
    continuation succeeded on what follows the run. *)
Lemma plus_loop_inv cl s : ∀ i caps k r,
  plus_loop cl i s caps k = Some r →
  ∃ pre rest, s = pre +:+ rest ∧ pre ≠ EmptyString ∧ all_in cl pre = true ∧
              k (i + String.length pre) rest caps = Some r.
Proof.
  induction s as [|c s IH]; intros i caps k r; simpl; [done|].
  destruct (in_class cl c) eqn:Hc; [|done].
  destruct (plus_loop cl (S i) s caps k) as [r'|] eqn:Hl.
  - intros [= <-]. destruct (IH _ _ _ _ Hl) as (pre & rest & -> & _ & Hall & Hk).
    exists (String c pre), rest. split_and!; try done.
    + simpl. by rewrite Hc, Hall.
    + simpl. by replace (i + S (String.length pre)) with (S i + String.length pre) by lia.
  - intros Hk. exists (String c EmptyString), s. split_and!; try done.
    + simpl. by rewrite Hc.
    + simpl. by replace (i + 1) with (S i) by lia.
Qed.

(** Greedy matching of a run that is followed by a character outside the
    class: the continuation is first tried after the whole run. *)
Lemma plus_loop_greedy cl pre : ∀ i c rest caps k r,
  pre ≠ EmptyString → all_in cl pre = true → in_class cl c = false →
  k (i + String.length pre) (String c rest) caps = Some r →
  plus_loop cl i (pre +:+ String c rest) caps k = Some r.
Proof.
  induction pre as [|d pre IH]; intros i c rest caps k r Hne Hall Hc Hk; [done|].
  str_simpl. simpl in *. apply andb_true_iff in Hall as [Hd Hall]. rewrite Hd.
  destruct pre as [|d' pre'].
  - str_simpl. simpl. rewrite Hc. by replace (S i) with (i + 1) by lia.
  - rewrite (IH (S i) c rest caps k r); try done.
    by replace (S i + String.length (String d' pre'))
      with (i + S (String.length (String d' pre'))) by lia.
Qed.

(** A successful attempt at the current index is the answer. *)
Lemma exec_from_attempt r i s m :
  attempt r i s = Some m → exec_from r i s = Some m.
Proof. intros H. destruct s; simpl; by rewrite H. Qed.

End Regex.


(** ** The zod combinators used by the entity-definition schemas *)

Module Zod.
Import JsString JsNumber Json.

(** An issue of a failed parse.  The message is kept for custom issues
    only; built-in issues take theirs from zod's error map. *)
Record issue := {
  issue_code : string;
  issue_path : list string;
  issue_message : option string;
}.

(** How a parse ends: with the parsed data, with issues, or with an
    exception thrown by user code inside a transform. *)
Inductive outcome (A : Type) :=
| Parsed (a : A)
| Issues (l : list issue)
| Thrown (msg : string).
Arguments Parsed {A} a.
Arguments Issues {A} l.
Arguments Thrown {A} msg.

Definition schema (A : Type) := value → outcome A.

Definition builtin (code : string) : issue :=
  {| issue_code := code; issue_path := []; issue_message := None |}.

Definition custom (path : list string) (msg : string) : issue :=
  {| issue_code := "custom"; issue_path := path; issue_message := Some msg |}.

Definition under (key : string) (i : issue) : issue :=
  {| issue_code := issue_code i;
     issue_path := key :: issue_path i;
     issue_message := issue_message i |}.

Definition issues_of {A} (key : string) (o : outcome A) : list issue :=
  match o with
  | Issues l => under key <$> l
  | _ => []
  end.

(** [z.string()] *)
Definition z_string : schema string := fun v =>
  match v with
  | JStr s => Parsed s
  | _ => Issues [builtin "invalid_type"]
  end.

(** [z.number()]: NaN is not of the number type for zod. *)
Definition z_number : schema number := fun v =>
  match v with
  | JNum n => if is_nan n then Issues [builtin "invalid_type"] else Parsed n
  | _ => Issues [builtin "invalid_type"]
  end.

(** [s.regex(re)] on a string schema *)
Definition z_regex (s : schema string) (re : Regex.regex) : schema string :=
  fun v =>
    match s v with
    | Parsed x =>
        if Regex.test re x then Parsed x
        else Issues [builtin "invalid_string"]
    | o => o
    end.

(** [z.optional(s)] *)
Definition z_optional {A} (s : schema A) : schema (option A) := fun v =>
  match v with
  | JUndefined => Parsed None
  | _ =>
      match s v with
      | Parsed a => Parsed (Some a)
      | Issues l => Issues l
      | Thrown m => Thrown m
      end
  end.

(** [s.default(d)] *)
Definition z_default {A} (s : schema A) (d : value) : schema A := fun v =>
  match v with
  | JUndefined => s d
  | _ => s v
  end.

(** [s.transform(f)] for an [f] that may throw: it runs on valid data
    only. *)
Definition z_transform {A B} (s : schema A) (f : A → outcome B) : schema B :=
  fun v =>
    match s v with
    | Parsed a => f a
    | Issues l => Issues l
    | Thrown m => Thrown m
    end.

(** [s1.or(s2)]: the first option that parses wins. *)
Definition z_or {A} (s1 s2 : schema A) : schema A := fun v =>
  match s1 v with
  | Issues _ =>
      match s2 v with
      | Issues _ => Issues [builtin "invalid_union"]
      | o => o
      end
  | o => o
  end.

(** [s.superRefine(check)]: the issues added by [check] fail the parse. *)
Definition z_superRefine {A} (s : schema A) (check : A → list issue)
  : schema A := fun v =>
  match s v with
  | Parsed a =>
      match check a with
      | [] => Parsed a
      | l => Issues l
      end
  | o => o
  end.

Definition accepts {A} (s : schema A) (v : value) : Prop :=
  ∃ a, s v = Parsed a.

End Zod.

(** ** Entity-definition schemas: [durationSchema], [metadataSchema] *)

Module EntitySchema.
Import JsString JsNumber Json Regex Zod.

(** [[m|d|s|h]] and [[m|s|h|d]]: inside brackets the bar is a member
    like the letters. *)
Definition unit_chars : charclass := Chars ["m"; "|"; "d"; "s"; "h"]%char.
Definition unit_chars' : charclass := Chars ["m"; "|"; "s"; "h"; "d"]%char.

(** [/^\d+[m|d|s|h]$/] *)
Definition validation_re : regex :=
  Cat Bol (Cat (Plus Digit) (Cat (Class unit_chars) Eol)).

(** [/(\d+)([m|s|h|d])/] *)
Definition parts_re : regex :=
  Cat (Group 1 (Plus Digit)) (Group 2 (Class unit_chars')).

(** [parts[i]]: [None] for [undefined]. *)
Definition part (parts : captures) (i : nat) : option string :=
  parts !! i ≫= id.

Definition digit_value (c : ascii) : N := (N_of_ascii c - 48)%N.

Fixpoint leading_digits (s : string) : list N :=
  match s with
  | EmptyString => []
  | String c s' =>
      if is_digit c then digit_value c :: leading_digits s' else []
  end.

Definition decimal (ds : list N) : N :=
  foldl (fun acc d => (10 * acc + d)%N) 0%N ds.

Fixpoint skip_space (s : string) : string :=
  match s with
  | String c s' => if Ascii.is_space c then skip_space s' else s
  | EmptyString => s
  end.

(** [parseInt(x, 10)]: white space, an optional sign, then the leading
    decimal digits; NaN when there is none, and otherwise the double
    nearest to the integer they write (an infinity for a long run of
    digits), as V8 computes it: past the 20th digit ECMAScript leaves the
    rounding to the implementation.  [undefined] reads as the text of
    that word, which has no digit. *)
Definition parseInt (x : option string) : number :=
  match x with
  | None => NaN
  | Some s =>
      let t := skip_space s in
      let '(neg, body) :=
        match t with
        | String "-"%char t' => (true, t')
        | String "+"%char t' => (false, t')
        | _ => (false, t)
        end in
      match leading_digits body with
      | [] => NaN
      | ds =>
          let n := Z.of_N (decimal ds) in
          JsNumber.round (Q2Qc (inject_Z (if neg then - n else n)%Z))
      end
  end.

(** What the transform takes from its input: the two arguments it hands
    to [moment.duration(value, unit)], and the [toJSON] it assigns to the
    object it gets back.  What moment builds from the two arguments is
    not in these sources and is not modelled; the inherited [toJSON] of
    moment is replaced before the object leaves the transform, so only
    the replacement is kept. *)
Record duration := {
  dur_value : number;
  dur_unit : option string;
  dur_toJSON : unit → string;
}.

Definition duration_transform (val : string) : outcome duration :=
  match exec parts_re val with
  | None => Thrown "Unable to parse duration"
  | Some parts =>
      let value := parseInt (part parts 1) in
      let unit := part parts 2 in
      Parsed {| dur_value := value; dur_unit := unit;
                dur_toJSON := fun _ => val |}
  end.

Definition durationSchema : schema duration :=
  z_transform (z_regex z_string validation_re) duration_transform.

(** [JSON.stringify] asks a parsed duration for its [toJSON()]. *)
Definition serialize (d : duration) : string := dur_toJSON d ().

(** The data [metadataSchema] parses to. *)
Record metadata := {
  source : string;
  destination : string;
  limit : number;
}.

(** The object of the first union option before its transform. *)
Record metadata_input := {
  in_source : string;
  in_destination : option string;
  in_limit : option number;
}.

(** [z.object({ source, destination, limit })]: unknown keys are
    stripped, the issues of all keys are collected. *)
Definition metadata_object : schema metadata_input := fun v =>
  match v with
  | JObj fields =>
      let s := z_string (get fields "source") in
      let d := z_optional z_string (get fields "destination") in
      let l := z_optional (z_default z_number (JNum (JsNumber.of_Z 1000)))
                 (get fields "limit") in
      match s, d, l with
      | Parsed s', Parsed d', Parsed l' =>
          Parsed {| in_source := s'; in_destination := d'; in_limit := l' |}
      | _, _, _ =>
          Issues (issues_of "source" s ++ issues_of "destination" d
                    ++ issues_of "limit" l)
      end
  | _ => Issues [builtin "invalid_type"]
  end.

Definition metadata_refine (value : metadata) : list issue :=
  (if JsNumber.ltb (limit value) (JsNumber.of_Z 1)
   then [custom ["limit"] "limit should be greater than 1"] else [])
  ++ (if Nat.eqb (String.length (source value)) 0
      then [custom ["source"] "source should not be empty"] else [])
  ++ (if Nat.eqb (String.length (destination value)) 0
      then [custom ["destination"] "destination should not be empty"]
      else []).

Definition metadataSchema : schema metadata :=
  z_superRefine
    (z_or
       (z_transform metadata_object
          (fun m => Parsed
             {| source := in_source m;
                destination := default (in_source m) (in_destination m);
                limit := default (JsNumber.of_Z 1000) (in_limit m) |}))
       (z_transform z_string
          (fun value => Parsed
             {| source := value; destination := value;
                limit := JsNumber.of_Z 1000 |})))
    metadata_refine.

(** The resolved fields of an object input, in the words of the
    specification: the source as given, the destination defaulting to the
    source, the limit defaulting to 1000. *)
Definition resolved (fields : list (string * value)) : option metadata :=
  match get fields "source" with
  | JStr src =>
      dst ← match get fields "destination" with
            | JUndefined => Some src
            | JStr d => Some d
            | _ => None
            end;
      lim ← match get fields "limit" with
            | JUndefined => Some (JsNumber.of_Z 1000)
            | JNum n => Some n
            | _ => None
            end;
      Some {| source := src; destination := dst; limit := lim |}
  | _ => None
  end.

End EntitySchema.


(** ** lodash [merge] on JSON values *)

Module Lodash.
Import JsNumber Json.

(** The names every plain object inherits from [Object.prototype]:
    [key in object] holds for them whatever the object's own keys. *)
Definition object_prototype_keys : list string := [
  "constructor"; "__defineGetter__"; "__defineSetter__"; "hasOwnProperty";
  "__lookupGetter__"; "__lookupSetter__"; "isPrototypeOf";
  "propertyIsEnumerable"; "toString"; "valueOf"; "__proto__";
  "toLocaleString"
].

Definition inherited (k : string) : bool :=
  existsb (String.eqb k) object_prototype_keys.

(** [key in object] for a plain object with own entries [o]. *)
Definition key_in (o : list (string * value)) (k : string) : bool :=
  has o k || inherited k.

(** [merge_value objValue srcValue] is the value [baseMerge] leaves for an
    array index, or for the whole of [_.merge(objValue, srcValue)]:
    - an [undefined] source value leaves the destination as it is;
    - other primitives are assigned;
    - an array is merged index by index into the destination array, or
      into a fresh one when the destination holds no array;
    - a plain object is merged key by key into the destination object, or
      into a fresh one when the destination holds no object.
    For the key [k] of a source object holding [sv], on the destination
    entries [o]:
    - an array or object under the key [__proto__] is skipped: lodash
      reads both sides through [safeGet], which gives [undefined] for
      that key, and [assignMergeValue] assigns [undefined] only to a key
      that is not [in] the destination, which [__proto__] always is;
    - an [undefined] value is assigned only when the key is not [in] the
      destination, be it own or inherited;
    - other primitives are assigned;
    - arrays and objects are merged into [o[k]] and the result assigned.
    A plain object arriving on an array (lodash then writes named
    properties onto the array) has no counterpart among JSON values; it
    leaves the array.  An array arriving on an object is merged into a
    fresh array, as lodash does unless the object has a numeric
    [length].  Neither case arises in [buildQuery], which copies into
    fresh destinations and then merges objects onto objects. *)
Fixpoint merge_value (objValue srcValue : value) {struct srcValue} : value :=
  match srcValue with
  | JUndefined => objValue
  | JNull | JBool _ | JNum _ | JStr _ => srcValue
  | JArr items =>
      let base := match objValue with JArr o => o | _ => [] end in
      JArr ((fix go (o s : list value) {struct s} : list value :=
               match s with
               | [] => o
               | sv :: s' =>
                   merge_value (List.hd JUndefined o) sv :: go (List.tl o) s'
               end) base items)
  | JObj fields =>
      match objValue with
      | JArr _ => objValue
      | _ =>
          let base := match objValue with JObj o => o | _ => [] end in
          JObj ((fix go (o : list (string * value)) (s : list (string * value))
                   {struct s} : list (string * value) :=
                   match s with
                   | [] => o
                   | (k, sv) :: s' =>
                       go (match sv with
                           | JUndefined =>
                               if key_in o k then o else set o k JUndefined
                           | JNull | JBool _ | JNum _ | JStr _ => set o k sv
                           | JArr _ | JObj _ =>
                               if String.eqb k "__proto__" then o
                               else set o k (merge_value (get o k) sv)
                           end) s'
                   end) base fields)
      end
  end.

(** What [baseMerge] does to the destination entries [o] for the key [k]
    of the source, holding [sv]. *)
Definition merge_field (o : list (string * value)) (k : string) (sv : value)
  : list (string * value) :=
  match sv with
  | JUndefined => if key_in o k then o else set o k JUndefined
  | JNull | JBool _ | JNum _ | JStr _ => set o k sv
  | JArr _ | JObj _ =>
      if String.eqb k "__proto__" then o
      else set o k (merge_value (get o k) sv)
  end.

(** The two loops of [merge_value], named. *)
Fixpoint merge_items (o s : list value) : list value :=
  match s with
  | [] => o
  | sv :: s' => merge_value (List.hd JUndefined o) sv :: merge_items (List.tl o) s'
  end.

Fixpoint merge_fields (o s : list (string * value)) : list (string * value) :=
  match s with
  | [] => o
  | (k, sv) :: s' => merge_fields (merge_field o k sv) s'
  end.

(** [_.merge(object, source)] of lodash, returning the mutated
    [object]. *)
Definition merge_mut (object source : value) : value :=
  merge_value object source.

(** [merge(object, source)] of [lodash/fp]: [object] is first copied by
    merging it into an empty object, then [source] is merged into the
    copy. *)
Definition merge (object source : value) : value :=
  merge_mut (merge_mut (JObj []) object) source.

(** Objects as JavaScript has them: no key occurs twice. *)
Fixpoint wf (v : value) : bool :=
  match v with
  | JArr items => forallb wf items
  | JObj fields =>
      bool_decide (NoDup (fields.*1)) && forallb (fun kv => wf (kv.2)) fields
  | _ => true
  end.

(** The values of which [merge] keeps every entry: no array or object
    sits under a key [__proto__], and no [undefined] under a name that
    objects inherit. *)
Fixpoint kept_by_merge (v : value) : bool :=
  match v with
  | JArr items => forallb kept_by_merge items
  | JObj fields =>
      forallb (fun kv =>
                 match kv.2 with
                 | JUndefined => negb (inherited (kv.1))
                 | JArr _ | JObj _ =>
                     negb (String.eqb (kv.1) "__proto__") && kept_by_merge (kv.2)
                 | _ => true
                 end) fields
  | _ => true
  end.

Lemma merge_value_arr o items :
  merge_value (JArr o) (JArr items) = JArr (merge_items o items).
Proof. reflexivity. Qed.

Lemma merge_value_obj o fields :
  merge_value (JObj o) (JObj fields) = JObj (merge_fields o fields).
Proof. reflexivity. Qed.

Lemma merge_value_fresh_arr items :
  merge_value JUndefined (JArr items) = JArr (merge_items [] items).
Proof. reflexivity. Qed.

Lemma merge_value_fresh_obj fields :
  merge_value JUndefined (JObj fields) = JObj (merge_fields [] fields).
Proof. reflexivity. Qed.

Lemma wf_obj_intro fields :
  NoDup (fields.*1) → Forall (fun kv => wf (kv.2) = true) fields →
  wf (JObj fields) = true.
Proof.
  intros Hnd Hall. simpl. rewrite bool_decide_eq_true_2 by done.
  simpl. apply forallb_forall. intros kv Hin.
  rewrite Forall_forall in Hall. apply Hall. by apply list_elem_of_In.
Qed.

Lemma wf_arr_intro items :
  Forall (fun v => wf v = true) items → wf (JArr items) = true.
Proof.
  intros Hall. simpl. apply forallb_forall. intros v Hin.
  rewrite Forall_forall in Hall. apply Hall. by apply list_elem_of_In.
Qed.

Lemma get_absent fields k : k ∉ fields.*1 → get fields k = JUndefined.
Proof.
  induction fields as [|[k' v] rest IH]; simpl; [done|].
  intros Hk. apply not_elem_of_cons in Hk as [Hne Hk].
  destruct (String.eqb k' k) eqn:E; [|by apply IH].
  apply String.eqb_eq in E. congruence.
Qed.

Lemma set_absent fields k v : k ∉ fields.*1 → set fields k v = fields ++ [(k, v)].
Proof.
  induction fields as [|[k' v'] rest IH]; simpl; [done|].
  intros Hk. apply not_elem_of_cons in Hk as [Hne Hk].
  destruct (String.eqb k' k) eqn:E.
  - apply String.eqb_eq in E. congruence.
  - by rewrite IH.
Qed.

(** Induction over values with the nested lists taken along. *)
Section value_induction.
Variable P : value → Prop.
Hypothesis Hundef : P JUndefined.
Hypothesis Hnull : P JNull.
Hypothesis Hbool : ∀ b, P (JBool b).
Hypothesis Hnum : ∀ n, P (JNum n).
Hypothesis Hstr : ∀ s, P (JStr s).
Hypothesis Harr : ∀ items, Forall P items → P (JArr items).
Hypothesis Hobj : ∀ fields, Forall (fun kv => P (kv.2)) fields → P (JObj fields).

Fixpoint value_nested_ind (v : value) : P v :=
  match v with
  | JUndefined => Hundef
  | JNull => Hnull
  | JBool b => Hbool b
  | JNum n => Hnum n
  | JStr s => Hstr s
  | JArr items =>
      Harr items
        ((fix go (l : list value) : Forall P l :=
            match l with
            | [] => @List.Forall_nil _ P
            | x :: l' => @List.Forall_cons _ P x l' (value_nested_ind x) (go l')
            end) items)
  | JObj fields =>
      Hobj fields
        ((fix go (l : list (string * value)) : Forall (fun kv => P (kv.2)) l :=
            match l with
            | [] => @List.Forall_nil _ _
            | (k, x) :: l' =>
                @List.Forall_cons _ (fun kv => P (kv.2)) (k, x) l'
                  (value_nested_ind x) (go l')
            end) fields)
  end.
End value_induction.

Lemma has_absent fields k : k ∉ fields.*1 → has fields k = false.
Proof.
  induction fields as [|[k' v] rest IH]; simpl; [done|].
  intros Hk. apply not_elem_of_cons in Hk as [Hne Hk].
  destruct (String.eqb k' k) eqn:E; [|by apply IH].
  apply String.eqb_eq in E. congruence.
Qed.

Lemma kept_by_merge_fields fields :
  kept_by_merge (JObj fields)
  = forallb (fun kv => kept_by_merge (JObj [kv])) fields.
Proof.
  induction fields as [|kv rest IH]; [done|].
  simpl. rewrite andb_true_r. f_equal. exact IH.
Qed.

(** An entry that [merge] keeps, arriving on a destination without its
    key, is appended once its value is copied. *)
Lemma merge_field_absent o k x :
  k ∉ o.*1 → kept_by_merge (JObj [(k, x)]) = true →
  merge_value JUndefined x = x →
  merge_field o k x = o ++ [(k, x)].
Proof.
  intros Hk Hkept Hx. simpl in Hkept. rewrite andb_true_r in Hkept.
  unfold merge_field, key_in.
  destruct x; try (by apply set_absent).
  - rewrite (has_absent _ _ Hk). simpl.
    apply negb_true_iff in Hkept as ->. by apply set_absent.
  - apply andb_true_iff in Hkept as [Hne _]. apply negb_true_iff in Hne as ->.
    rewrite (get_absent _ _ Hk), Hx. by apply set_absent.
  - apply andb_true_iff in Hkept as [Hne _]. apply negb_true_iff in Hne as ->.
    rewrite (get_absent _ _ Hk), Hx. by apply set_absent.
Qed.

(** Merging into nothing copies a value whose entries [merge] keeps. *)
Lemma merge_value_copy v :
  wf v = true → kept_by_merge v = true → merge_value JUndefined v = v.
Proof.
  induction v as [| | | | |items IH|fields IH] using value_nested_ind;
    try done; intros Hwf Hkept.
  - rewrite merge_value_fresh_arr. f_equal. simpl in Hwf, Hkept.
    induction IH as [|x l Hx _ IHl]; simpl; [done|].
    simpl in Hwf, Hkept.
    apply andb_true_iff in Hwf as [Hwx Hwl].
    apply andb_true_iff in Hkept as [Hkx Hkl].
    by rewrite Hx, IHl.
  - rewrite merge_value_fresh_obj. f_equal. simpl in Hwf.
    apply andb_true_iff in Hwf as [Hnd Hall]. apply bool_decide_eq_true in Hnd.
    rewrite kept_by_merge_fields in Hkept.
    assert (∀ acc, (∀ k, k ∈ acc.*1 → k ∉ fields.*1) →
                   merge_fields acc fields = acc ++ fields) as Hgo.
    { clear -IH Hnd Hall Hkept.
      induction IH as [|[k x] l Hx _ IHl]; intros acc Hdis.
      - simpl. by rewrite app_nil_r.
      - simpl in Hnd, Hall, Hkept. apply NoDup_cons in Hnd as [Hk Hnd].
        apply andb_true_iff in Hall as [Hwx Hall].
        apply andb_true_iff in Hkept as [Hkx Hkept].
        assert (k ∉ acc.*1) as Hka.
        { intros Hin. apply (Hdis k Hin). by left. }
        assert (merge_value JUndefined x = x) as Hcopy.
        { apply Hx; [exact Hwx|]. clear -Hkx. simpl in Hkx.
          rewrite andb_true_r in Hkx.
          destruct x; try done; by apply andb_true_iff in Hkx as [_ ?]. }
        change (merge_fields acc ((k, x) :: l))
          with (merge_fields (merge_field acc k x) l).
        rewrite (merge_field_absent _ _ _ Hka Hkx Hcopy).
        rewrite (IHl Hnd Hall Hkept).
        + by rewrite <- app_assoc.
        + intros k'. rewrite fmap_app, elem_of_app. simpl.
          intros [Hin| ->%list_elem_of_singleton]; [|done].
          intros Hin'. apply (Hdis k' Hin). by right. }
    apply (Hgo []). intros k Hk. by apply elem_of_nil in Hk.
Qed.

Lemma merge_into_empty fields :
  wf (JObj fields) = true → kept_by_merge (JObj fields) = true →
  merge_mut (JObj []) (JObj fields) = JObj fields.
Proof.
  intros Hwf Hkept. unfold merge_mut. rewrite merge_value_obj.
  rewrite <- merge_value_fresh_obj. by apply merge_value_copy.
Qed.

Lemma kept_obj_intro fields :
  Forall (fun kv => kept_by_merge (JObj [kv]) = true) fields →
  kept_by_merge (JObj fields) = true.
Proof.
  intros Hall. rewrite kept_by_merge_fields.
  apply forallb_forall. intros kv Hin.
  rewrite Forall_forall in Hall. apply Hall. by apply list_elem_of_In.
Qed.

Lemma kept_entry k x :
  kept_by_merge (JObj [(k, x)]) =
    match x with
    | JUndefined => negb (inherited k)
    | JArr _ | JObj _ => negb (String.eqb k "__proto__") && kept_by_merge x
    | _ => true
    end.
Proof. simpl. by rewrite andb_true_r. Qed.

Lemma kept_arr_intro items :
  Forall (fun v => kept_by_merge v = true) items →
  kept_by_merge (JArr items) = true.
Proof.
  intros Hall. simpl. apply forallb_forall. intros v Hin.
  rewrite Forall_forall in Hall. apply Hall. by apply list_elem_of_In.
Qed.

(** What [merge] does with a [__proto__] key and with an inherited name
    holding [undefined], against an ordinary key. *)
Example merge_drops_proto_object :
  merge (JObj [("a", JObj [("__proto__", JObj [("x", JNum (of_Z 1))])]);
               ("__proto__", JNum (of_Z 2));
               ("toString", JUndefined);
               ("b", JUndefined)])
        (JObj [])
  = JObj [("a", JObj []); ("__proto__", JNum (of_Z 2)); ("b", JUndefined)].
Proof. reflexivity. Qed.

End Lodash.


(** ** Authentications search strategy: [buildQuery] *)

Module Authentications.
Import JsString JsNumber Json Lodash.

Record TimerangeInput := {
  from : number;
  to : number;
}.

(** [cursor] is an optional string; [None] stands for both [null] and
    [undefined]. *)
Record PaginationInput := {
  limit : number;
  cursor : option string;
}.

Record SourceFields := {
  timestamp : string;
}.

Record SourceConfiguration := {
  fields_of : SourceFields;
  auditbeatAlias : string;
}.

Record AuthorizationsRequestOptions := {
  timerange : TimerangeInput;
  pagination : PaginationInput;
  fields : list string;
  filterQuery : value;
  sourceConfiguration : SourceConfiguration;
}.

Definition auditdMap : list (string * string) := [
  ("latest", "@timestamp");
  ("from", "source.ip");
  ("to.id", "host.id");
  ("to.name", "host.name")
].

(** [if (cursor)] *)
Definition cursor_truthy (c : option string) : bool :=
  match c with
  | Some s => JsString.truthy s
  | None => false
  end.

Definition term (field text : string) : value :=
  JObj [("term", JObj [(field, JStr text)])].

Definition terms (field : string) (texts : list string) : value :=
  JObj [("terms", JObj [(field, JArr (JStr <$> texts))])].

Definition range (field : string) (gte lte : number) : value :=
  JObj [("range", JObj [(field, JObj [("gte", JNum gte); ("lte", JNum lte)])])].

(** The four clauses that follow the ones made from [filterQuery]. *)
Definition fixed_clauses (options : AuthorizationsRequestOptions) : list value := [
  term "event.category" "user-login";
  term "process.exe" "/usr/sbin/sshd";
  terms "event.type" ["user_login"; "user_start"];
  range (timestamp (fields_of (sourceConfiguration options)))
        (from (timerange options)) (to (timerange options))
].

(** The object merged in when there is a cursor. *)
Definition after_patch (c : string) : value :=
  JObj [("body", JObj [("aggregations", JObj [("group_by_users",
    JObj [("composite", JObj [("after", JObj [("user_uid", JStr c)])])])])])].

Definition after_path : list string :=
  ["body"; "aggregations"; "group_by_users"; "composite"; "after"].
Definition size_path : list string :=
  ["body"; "aggregations"; "group_by_users"; "composite"; "size"].
Definition filter_path : list string :=
  ["body"; "query"; "bool"; "filter"].

Section build_query.

(** [createQueryFilterClauses] and [reduceFields] of [utils/build_query]
    are not among the sources modelled here; [buildQuery] is read with
    them as given functions. *)
Variable createQueryFilterClauses : value → list value.
Variable reduceFields : list string → list (string * string) → list string.

Definition dslQuery (options : AuthorizationsRequestOptions) : value :=
  let esFields := reduceFields (fields options) auditdMap in
  let filter := createQueryFilterClauses (filterQuery options)
                  ++ fixed_clauses options in
  let agg := [
    ("user_count", JObj [("cardinality", JObj [("field", JStr "auditd.data.acct")])])
  ] in
  JObj [
    ("allowNoIndices", JBool true);
    ("index", JStr (auditbeatAlias (sourceConfiguration options)));
    ("ignoreUnavailable", JBool true);
    ("body", JObj [
      ("aggregations", JObj (agg ++ [
        ("group_by_users", JObj [
          ("composite", JObj [
            ("size", JNum (JsNumber.add (limit (pagination options)) (JsNumber.of_Z 1)));
            ("sources", JArr [
              JObj [("user_uid", JObj [("terms", JObj [("field", JStr "auditd.data.acct")])])]
            ])
          ]);
          ("aggs", JObj [
            ("failures", JObj [("filter", JObj [("term", JObj [("auditd.result", JStr "fail")])])]);
            ("successes", JObj [("filter", JObj [("term", JObj [("auditd.result", JStr "success")])])]);
            ("authorization", JObj [
              ("top_hits", JObj [
                ("size", JNum (JsNumber.of_Z 1));
                ("_source", JArr (JStr <$> esFields));
                ("sort", JArr [JObj [("@timestamp", JObj [("order", JStr "desc")])]])
              ])
            ])
          ])
        ])
      ]));
      ("query", JObj [("bool", JObj [("filter", JArr filter)])])
    ]);
    ("size", JNum (JsNumber.of_Z 0));
    ("track_total_hits", JBool false)
  ].

Definition buildQuery (options : AuthorizationsRequestOptions) : value :=
  match cursor (pagination options) with
  | Some c =>
      if JsString.truthy c
      then Lodash.merge (dslQuery options) (after_patch c)
      else dslQuery options
  | None => dslQuery options
  end.

(** The same options with the cursor left out. *)
Definition without_cursor (options : AuthorizationsRequestOptions)
  : AuthorizationsRequestOptions :=
  {| timerange := timerange options;
     pagination := {| limit := limit (pagination options); cursor := None |};
     fields := fields options;
     filterQuery := filterQuery options;
     sourceConfiguration := sourceConfiguration options |}.

Lemma wf_strings (l : list string) : forallb wf (JStr <$> l) = true.
Proof. induction l as [|s l IH]; simpl; [done | exact IH]. Qed.

Lemma forallb_app_true {A} (f : A → bool) (l1 l2 : list A) :
  forallb f l1 = true → forallb f l2 = true → forallb f (l1 ++ l2) = true.
Proof. intros H1 H2. rewrite forallb_app. by rewrite H1, H2. Qed.

Lemma dslQuery_wf options :
  forallb wf (createQueryFilterClauses (filterQuery options)) = true →
  wf (dslQuery options) = true.
Proof.
  intros Hcl. unfold dslQuery, fixed_clauses, term, terms, range.
  repeat first
    [ reflexivity
    | apply wf_strings
    | exact Hcl
    | apply forallb_app_true
    | apply wf_arr_intro
    | apply wf_obj_intro;
      [ first [ apply NoDup_singleton
              | apply (bool_decide_unpack _); vm_compute; exact I ]
      | simpl app ]
    | apply Forall_cons_2; [cbn [snd] |]
    | apply Forall_nil_2 ].
Qed.

Lemma kept_strings (l : list string) : forallb kept_by_merge (JStr <$> l) = true.
Proof. induction l as [|s l IH]; simpl; [done | exact IH]. Qed.

Lemma dslQuery_kept options :
  timestamp (fields_of (sourceConfiguration options)) ≠ "__proto__" →
  forallb kept_by_merge (createQueryFilterClauses (filterQuery options)) = true →
  kept_by_merge (dslQuery options) = true.
Proof.
  intros Hts Hcl. apply String.eqb_neq in Hts.
  unfold dslQuery, fixed_clauses, term, terms, range.
  simpl. rewrite kept_strings, forallb_app, Hcl. simpl. by rewrite Hts.
Qed.

(** With a cursor, and entries that [merge] keeps, the query is the one
    without a cursor where the [composite] object gained a last key
    [after]. *)
Lemma buildQuery_with_cursor options c :
  timestamp (fields_of (sourceConfiguration options)) ≠ "__proto__" →
  forallb wf (createQueryFilterClauses (filterQuery options)) = true →
  forallb kept_by_merge (createQueryFilterClauses (filterQuery options)) = true →
  cursor (pagination options) = Some c → JsString.truthy c = true →
  buildQuery options = Lodash.merge_mut (dslQuery options) (after_patch c).
Proof.
  intros Hts Hwf Hkept Hc Ht. unfold buildQuery. rewrite Hc, Ht.
  unfold Lodash.merge.
  f_equal. apply merge_into_empty; [by apply dslQuery_wf | by apply dslQuery_kept].
Qed.

(** With a cursor the [after] key is there, whatever [merge] kept of the
    rest: no key on the way to it is one that [merge] skips. *)
Lemma buildQuery_has_after options c :
  cursor (pagination options) = Some c → JsString.truthy c = true →
  has_path (buildQuery options) after_path = true.
Proof.
  intros Hc Ht. unfold buildQuery. rewrite Hc, Ht. reflexivity.
Qed.

Lemma buildQuery_without_cursor options :
  buildQuery (without_cursor options) = dslQuery options.
Proof. reflexivity. Qed.

Lemma buildQuery_no_cursor options :
  cursor_truthy (cursor (pagination options)) = false →
  buildQuery options = dslQuery options.
Proof.
  unfold buildQuery, cursor_truthy. destruct (cursor (pagination options)); [|done].
  by intros ->.
Qed.

End build_query.

End Authentications.


(** ** [Array.prototype.sort] with a comparator *)

Module JsArray.

Section sort.
Context {A : Type}.
Variable compareFn : A → A → Z.

(** [x] goes in front of the first element it does not come after. *)
Fixpoint insert_sorted (x : A) (l : list A) : list A :=
  match l with
  | [] => [x]
  | y :: l' =>
      if (compareFn x y <=? 0)%Z then x :: y :: l'
      else y :: insert_sorted x l'
  end.

(** A stable sort by insertion.  The engine's algorithm is another one,
    but for a comparator that is a total preorder all stable sorts return
    the same array. *)
Definition sort (l : list A) : list A := foldr insert_sorted [] l.

Definition before (x y : A) : Prop := (compareFn x y ≤ 0)%Z.

Lemma insert_sorted_Permutation x l : insert_sorted x l ≡ₚ x :: l.
Proof.
  induction l as [|y l IH]; simpl; [done|].
  destruct (compareFn x y <=? 0)%Z; [done|].
  rewrite IH. apply Permutation_swap.
Qed.

Lemma sort_Permutation l : sort l ≡ₚ l.
Proof.
  induction l as [|x l IH]; simpl; [done|].
  rewrite insert_sorted_Permutation. by rewrite IH.
Qed.

(** A consistent comparator: a total preorder. *)
Hypothesis before_total : ∀ x y, before x y ∨ before y x.
Hypothesis before_trans : ∀ x y z, before x y → before y z → before x z.

Lemma insert_sorted_StronglySorted x l :
  StronglySorted before l → StronglySorted before (insert_sorted x l).
Proof.
  induction 1 as [|y l Hl IH Hy]; simpl.
  - repeat constructor.
  - destruct (compareFn x y <=? 0)%Z eqn:E.
    + apply Z.leb_le in E. constructor; [by constructor|].
      constructor; [exact E|].
      eapply Forall_impl; [exact Hy|]. intros z Hz. by eapply before_trans.
    + apply Z.leb_gt in E. constructor; [exact IH|].
      rewrite insert_sorted_Permutation. constructor; [|exact Hy].
      destruct (before_total x y) as [H|H]; [unfold before in H; lia | exact H].
Qed.

Lemma sort_StronglySorted l : StronglySorted before (sort l).
Proof.
  induction l as [|x l IH]; simpl; [constructor|].
  by apply insert_sorted_StronglySorted.
Qed.

End sort.

Lemma filter_Permutation {A} (f : A → bool) (l1 l2 : list A) :
  l1 ≡ₚ l2 → List.filter f l1 ≡ₚ List.filter f l2.
Proof.
  induction 1 as [|x l1 l2 _ IH|x y l|l1 l2 l3 _ IH1 _ IH2]; simpl.
  - done.
  - destruct (f x); [by constructor | done].
  - destruct (f x), (f y); try done. apply Permutation_swap.
  - by etrans.
Qed.

Lemma filter_filter {A} (f g : A → bool) (l : list A) :
  List.filter g (List.filter f l) = List.filter (fun x => f x && g x) l.
Proof.
  induction l as [|x l IH]; simpl; [done|].
  destruct (f x); simpl; [|done]. destruct (g x); by rewrite IH.
Qed.

Lemma filter_StronglySorted {A} (R : relation A) (f : A → bool) (l : list A) :
  StronglySorted R l → StronglySorted R (List.filter f l).
Proof.
  induction 1 as [|x l Hl IH Hx]; simpl; [constructor|].
  destruct (f x); [|exact IH].
  constructor; [exact IH|].
  rewrite Forall_forall in Hx |- *. intros y Hy.
  apply Hx. apply list_elem_of_In in Hy. apply filter_In in Hy as [Hy _].
  by apply list_elem_of_In.
Qed.

(** [l.includes(x)] on strings *)
Definition includes (l : list string) (x : string) : bool :=
  bool_decide (x ∈ l).

End JsArray.


(** ** ES|QL autocomplete factories *)

Module Autocomplete.
Import JsString JsArray.

Record Signature := {
  params : list string;
  returnType : string;
}.

Record FunctionDefinition := {
  fn_type : string;
  name : string;
  description : string;
  supportedCommands : list string;
  supportedOptions : option (list string);
  signatures : list Signature;
  examples : option (list string);
}.

Record Command := {
  command_title : string;
  command_id : string;
}.

Record SuggestionRawDefinition := {
  label : string;
  text : string;
  asSnippet : option bool;
  kind : string;
  detail : string;
  documentation : option string;
  sortText : option string;
  command : option Command;
}.

Definition TRIGGER_SUGGESTION_COMMAND : Command := {|
  command_title := "Trigger Suggestion Dialog";
  command_id := "editor.action.triggerSuggest";
|}.

Definition fieldDefinition_id : string :=
  "kbn-esql-validation-autocomplete.esql.autocomplete.fieldDefinition".
Definition fieldDefinition_default : string :=
  "Field specified by the input table".

Section factories.

(** What the module imports from sources not modelled here:
    - the three definition tables concatenated into [allFunctions];
    - [getFunctionSignatures] and [buildFunctionDocumentation], with the
      type of the full signatures they exchange and its [declaration];
    - [shouldBeQuotedText], and [text.replace(SINGLE_TICK_REGEX,
      DOUBLE_BACKTICK)] as one function;
    - [toUpperCase] and [localeCompare] of the engine;
    - [i18n.translate], which reads the translations loaded in the i18n
      service: [I18n] is the state of that service. *)
Variable allFunctions : list FunctionDefinition.
Variable FullSignature : Type.
Variable declaration : FullSignature → string.
Variable getFunctionSignatures : FunctionDefinition → list FullSignature.
Variable buildFunctionDocumentation :
  list FullSignature → option (list string) → string.
Variable shouldBeQuotedText : string → bool.
Variable escapeTicks : string → string.
Variable toUpperCase : string → string.
Variable localeCompare : string → string → Z.
Variable I18n : Type.
Variable translate : I18n → string → string → string.

Definition backtick : string := "`".

(** [getSafeInsertText(text)] with the default options. *)
Definition getSafeInsertText (text : string) : string :=
  if shouldBeQuotedText text
  then backtick +:+ escapeTicks text +:+ backtick
  else text.

(** [getSuggestionFunctionDefinition(fn)]; [None] is the [TypeError] of
    reading [declaration] off a missing first signature. *)
Definition getSuggestionFunctionDefinition (fn : FunctionDefinition)
  : option SuggestionRawDefinition :=
  let fullSignatures := getFunctionSignatures fn in
  first ← head fullSignatures;
  Some {|
    label := declaration first;
    text := toUpperCase (name fn) +:+ "($0)";
    asSnippet := Some true;
    kind := "Function";
    detail := description fn;
    documentation := Some (buildFunctionDocumentation fullSignatures (examples fn));
    sortText := Some (if String.eqb (fn_type fn) "agg" then "1A" else "C");
    command := Some TRIGGER_SUGGESTION_COMMAND;
  |}.

(** [option ? supportedOptions?.includes(option)
            : supportedCommands.includes(command)] *)
Definition supported (command : string) (opt : option string)
    (fn : FunctionDefinition) : bool :=
  match opt with
  | Some o =>
      if JsString.truthy o
      then match supportedOptions fn with
           | Some l => includes l o
           | None => false
           end
      else includes (supportedCommands fn) command
  | None => includes (supportedCommands fn) command
  end.

Definition compareByName (a b : FunctionDefinition) : Z :=
  localeCompare (name a) (name b).

Definition fnSupportedByCommand (command : string) (opt : option string)
    (ignored : list string) : list FunctionDefinition :=
  JsArray.sort compareByName
    (List.filter
       (fun fn => supported command opt fn && negb (includes ignored (name fn)))
       allFunctions).

(** The test of the second filter, for given [returnTypes]. *)
Definition returnsOneOf (returnTypes : list string) (fn : FunctionDefinition)
  : bool :=
  existsb
    (fun signature =>
       bool_decide (head returnTypes = Some "any")
       || includes returnTypes (returnType signature))
    (signatures fn).

(** [getCompatibleFunctionDefinition(command, option, returnTypes,
    ignored)]; a missing [ignored] is the empty list. *)
Definition getCompatibleFunctionDefinition (command : string)
    (opt : option string) (returnTypes : option (list string))
    (ignored : option (list string))
  : option (list SuggestionRawDefinition) :=
  let fnSupportedByCommand :=
    fnSupportedByCommand command opt (default [] ignored) in
  match returnTypes with
  | None => mapM getSuggestionFunctionDefinition fnSupportedByCommand
  | Some returnTypes =>
      mapM getSuggestionFunctionDefinition
        (List.filter (returnsOneOf returnTypes) fnSupportedByCommand)
  end.

(** [buildFieldsDefinitions(fields)], run with the i18n service in state
    [i18n]. *)
Definition buildFieldsDefinitions (i18n : I18n) (fields : list string)
  : list SuggestionRawDefinition :=
  (fun label' => {|
     label := label';
     text := getSafeInsertText label';
     asSnippet := None;
     kind := "Variable";
     detail := translate i18n fieldDefinition_id fieldDefinition_default;
     documentation := None;
     sortText := Some "D";
     command := None;
   |}) <$> fields.

(** *** The functions kept, as the specification words it and as the
    code has it *)

(** As worded: the option decides as soon as it is given, and a type
    filter lets a function through when the first type is [any] or when
    one of its signatures returns one of the types. *)
Definition kept_as_worded (command : string) (opt : option string)
    (returnTypes : option (list string)) (ignored : option (list string))
    (fn : FunctionDefinition) : bool :=
  (match opt with
   | Some o => match supportedOptions fn with
               | Some l => includes l o
               | None => false
               end
   | None => includes (supportedCommands fn) command
   end)
  && negb (includes (default [] ignored) (name fn))
  && match returnTypes with
     | None => true
     | Some rts =>
         bool_decide (head rts = Some "any")
         || existsb (fun s => includes rts (returnType s)) (signatures fn)
     end.

(** As amended: the option decides when it is a non-empty string, and the
    type filter asks for a signature in both of its cases. *)
Definition kept (command : string) (opt : option string)
    (returnTypes : option (list string)) (ignored : option (list string))
    (fn : FunctionDefinition) : bool :=
  (match opt with
   | Some o =>
       if JsString.is_empty o then includes (supportedCommands fn) command
       else match supportedOptions fn with
            | Some l => includes l o
            | None => false
            end
   | None => includes (supportedCommands fn) command
   end)
  && negb (includes (default [] ignored) (name fn))
  && match returnTypes with
     | None => true
     | Some rts =>
         (negb (Nat.eqb (length (signatures fn)) 0)
          && bool_decide (head rts = Some "any"))
         || existsb (fun s => includes rts (returnType s)) (signatures fn)
     end.

Definition byName (a b : FunctionDefinition) : Prop :=
  (localeCompare (name a) (name b) ≤ 0)%Z.

Lemma returnsOneOf_spec rts fn :
  returnsOneOf rts fn =
    (negb (Nat.eqb (length (signatures fn)) 0)
     && bool_decide (head rts = Some "any"))
    || existsb (fun s => includes rts (returnType s)) (signatures fn).
Proof.
  unfold returnsOneOf. destruct (bool_decide (head rts = Some "any")); simpl.
  - destruct (signatures fn); simpl; done.
  - rewrite andb_false_r. done.
Qed.

Lemma supported_spec cmd o fn :
  supported cmd (Some o) fn =
    if JsString.is_empty o then includes (supportedCommands fn) cmd
    else match supportedOptions fn with
         | Some l => includes l o
         | None => false
         end.
Proof. unfold supported, JsString.truthy. by destruct (JsString.is_empty o). Qed.

End factories.

End Autocomplete.


(** * Properties *)

(** ** The OpenAPI contract *)

Module OpenApiFacts.
Import OpenApi.

(** C1. In the contract of [DeleteExceptionList] the query parameters
    are [id], [list_id] and [namespace_type]; each of them is declared
    with [required: false]; the descriptions of [id] and [list_id] both
    read that either [id] or [list_id] must be specified; and
    [namespace_type] is declared with the default [single]. *)
Theorem delete_exception_list_parameters :
  param_name <$> op_parameters DeleteExceptionList
    = ["id"; "list_id"; "namespace_type"] ∧
  Forall (fun p => param_in p = "query" ∧ param_required p = Some false)
    (op_parameters DeleteExceptionList) ∧
  (param_description <$> find_parameter DeleteExceptionList "id")
    = Some (Some "Either `id` or `list_id` must be specified") ∧
  (param_description <$> find_parameter DeleteExceptionList "list_id")
    = Some (Some "Either `id` or `list_id` must be specified") ∧
  (schema_default ∘ param_schema <$>
     find_parameter DeleteExceptionList "namespace_type")
    = Some (Some "single").
Proof.
  split_and!.
  - reflexivity.
  - repeat constructor.
  - reflexivity.
  - reflexivity.
  - reflexivity.
Qed.

(** C2. The contract declares the status codes 200, 400, 401, 403, 404
    and 500 and no other; 200 answers with a JSON body of schema
    [ExceptionList]; each of 400, 401, 403, 404 and 500 answers with a
    JSON body whose schema is [PlatformErrorResponse],
    [SiemErrorResponse] or a choice between the two. *)
Theorem delete_exception_list_responses :
  declared_statuses DeleteExceptionList = [200; 400; 401; 403; 404; 500] ∧
  (∀ code, is_Some (find_response DeleteExceptionList code)
           ↔ code ∈ [200; 400; 401; 403; 404; 500]) ∧
  (json_response (is_ref_to "ExceptionList")
     <$> find_response DeleteExceptionList 200) = Some true ∧
  Forall (fun code =>
            (json_response is_error_schema
               <$> find_response DeleteExceptionList code) = Some true)
    [400; 401; 403; 404; 500].
Proof.
  split_and!.
  - reflexivity.
  - intros code. split.
    + unfold find_response. intros [r Hr].
      apply find_some in Hr as [Hin Heq]. apply Nat.eqb_eq in Heq as <-.
      apply list_elem_of_In in Hin.
      change (resp_status r ∈ declared_statuses DeleteExceptionList).
      by apply list_elem_of_fmap_2.
    + intros Hin. repeat (apply elem_of_cons in Hin as [->|Hin]; [by eexists|]).
      by apply elem_of_nil in Hin.
  - reflexivity.
  - repeat constructor.
Qed.

End OpenApiFacts.


(** ** The entity-definition schemas *)

Module SchemaFacts.
Import JsString JsNumber Json Regex Zod EntitySchema.

Lemma unit_chars_same c : in_class unit_chars' c = in_class unit_chars c.
Proof.
  simpl. destruct (Ascii.eqb c "m"), (Ascii.eqb c "|"), (Ascii.eqb c "d"),
    (Ascii.eqb c "s"), (Ascii.eqb c "h"); reflexivity.
Qed.

Lemma unit_char_not_digit c : in_class unit_chars c = true → is_digit c = false.
Proof.
  simpl. rewrite !orb_true_iff.
  intros [H|[H|[H|[H|[H|H]]]]]; try done;
    apply Ascii.eqb_eq in H as ->; reflexivity.
Qed.

Local Arguments in_class : simpl never.

Example validation_re_minutes : test validation_re "15m" = true.
Proof. reflexivity. Qed.

Example validation_re_bar : test validation_re "007|" = true.
Proof. reflexivity. Qed.

Example validation_re_rejects :
  test validation_re <$> ["m"; "15"; "15mm"; " 15m"; "15m "; "1.5h"; "-3d"]
    = [false; false; false; false; false; false; false].
Proof. reflexivity. Qed.

Example parts_re_searches :
  exec parts_re "about 15|x" = Some [Some "15|"; Some "15"; Some "|"].
Proof. reflexivity. Qed.

Example parts_re_null : exec parts_re "fifteen minutes" = None.
Proof. reflexivity. Qed.

(** The start anchor fails at every index but 0. *)
Lemma validation_only_at_start s : ∀ i, exec_from validation_re (S i) s = None.
Proof. induction s as [|c s IH]; intros i; simpl; [done | apply IH]. Qed.

(** What [/^\d+[m|d|s|h]$/] accepts: a non-empty run of digits followed
    by exactly one character of the class. *)
Lemma validation_re_spec val :
  test validation_re val = true ↔
  ∃ ds u, val = ds +:+ String u EmptyString ∧ ds ≠ EmptyString ∧
          all_in Digit ds = true ∧ in_class unit_chars u = true.
Proof.
  unfold test, exec. split.
  - destruct (exec_from validation_re 0 val) as [m|] eqn:E; [intros _|done].
    assert (is_Some (attempt validation_re 0 val)) as [m' Hm'].
    { destruct val as [|c val]; simpl in E |- *.
      - done.
      - rewrite validation_only_at_start in E.
        destruct (attempt validation_re 0 (String c val)); [eauto|done]. }
    unfold attempt in Hm'. simpl in Hm'.
    match type of Hm' with
    | match ?x with _ => _ end = _ => destruct x as [r|] eqn:Hl; [|done]
    end.
    apply plus_loop_inv in Hl as (pre & rest & -> & Hne & Hall & Hk).
    destruct rest as [|u rest]; [done|].
    destruct (in_class unit_chars u) eqn:Hu; [|done].
    destruct rest; [|done]. by exists pre, u.
  - intros (ds & u & -> & Hne & Hall & Hu).
    assert (is_Some (attempt validation_re 0 (ds +:+ String u EmptyString)))
      as [m Hm].
    { unfold attempt. simpl.
      erewrite plus_loop_greedy;
        [|done|done|by apply unit_char_not_digit|by rewrite Hu].
      simpl. eauto. }
    by rewrite (exec_from_attempt _ _ _ _ Hm).
Qed.

(** On such a string, [/(\d+)([m|s|h|d])/] matches at index 0 and
    captures the digits and the unit. *)
Lemma parts_re_exec ds u :
  ds ≠ EmptyString → all_in Digit ds = true → in_class unit_chars u = true →
  exec parts_re (ds +:+ String u EmptyString)
    = Some [Some (ds +:+ String u EmptyString); Some ds;
            Some (String u EmptyString)].
Proof.
  intros Hne Hall Hu. unfold exec.
  assert (attempt parts_re 0 (ds +:+ String u EmptyString)
          = Some [Some (ds +:+ String u EmptyString); Some ds;
                  Some (String u EmptyString)]) as Hm.
  { unfold attempt. simpl.
    erewrite plus_loop_greedy;
      [|done|done|by apply unit_char_not_digit
       |by rewrite unit_chars_same, Hu].
    simpl.
    replace (S (String.length ds) - String.length ds) with 1 by lia.
    rewrite ?Nat.sub_0_r, substring_append_l.
    replace (S (String.length ds)) with (String.length (ds +:+ String u EmptyString)).
    - by rewrite substring_all.
    - rewrite length_append. simpl. lia. }
  by apply exec_from_attempt.
Qed.

Lemma duration_transform_parsed ds u :
  ds ≠ EmptyString → all_in Digit ds = true → in_class unit_chars u = true →
  duration_transform (ds +:+ String u EmptyString) =
    Parsed {| dur_value := parseInt (Some ds);
              dur_unit := Some (String u EmptyString);
              dur_toJSON := fun _ => ds +:+ String u EmptyString |}.
Proof.
  intros Hne Hall Hu. unfold duration_transform.
  by rewrite (parts_re_exec ds u Hne Hall Hu).
Qed.

Lemma durationSchema_string val :
  durationSchema (JStr val) =
    if test validation_re val then duration_transform val
    else Issues [builtin "invalid_string"].
Proof.
  unfold durationSchema, z_transform, z_regex, z_string.
  by destruct (test validation_re val).
Qed.

Lemma string_length_0 s : Nat.eqb (String.length s) 0 = is_empty s.
Proof. by destruct s. Qed.

Lemma metadata_refine_nil m :
  metadata_refine m = [] ↔
  JsNumber.ltb (limit m) (JsNumber.of_Z 1) = false ∧
  source m ≠ EmptyString ∧ destination m ≠ EmptyString.
Proof.
  unfold metadata_refine. rewrite !string_length_0.
  destruct (JsNumber.ltb (limit m) (JsNumber.of_Z 1)),
    (source m) as [|c1 s1], (destination m) as [|c2 s2]; simpl;
    split; try done; intros (? & ? & ?); done.
Qed.

Lemma refine_parsed (m m' : metadata) :
  match metadata_refine m' with
  | [] => Parsed m'
  | l => Issues l
  end = Parsed m ↔ m' = m ∧ metadata_refine m = [].
Proof.
  destruct (metadata_refine m') as [|i l] eqn:E.
  - split; [intros [= <-]; done | intros [-> _]; done].
  - split; [done | intros [<- H]; congruence].
Qed.

Lemma at_least_1 n :
  JsNumber.geb n (JsNumber.of_Z 1) = true ↔
  JsNumber.is_nan n = false ∧ JsNumber.ltb n (JsNumber.of_Z 1) = false.
Proof.
  destruct n as [| |q|]; simpl; try (split; [done | intros [? ?]; done]).
  destruct (q ?= _)%Qc; split; try done; intros [? ?]; done.
Qed.

(** C3. On every string that passes [/^\d+[m|d|s|h]$/], the second
    match with [/(\d+)([m|s|h|d])/] inside the transform is not [null]:
    the transform does not throw and the schema parses the string. *)
Theorem durationSchema_rematch_total val :
  test validation_re val = true →
  is_Some (exec parts_re val) ∧
  (∀ msg, duration_transform val ≠ Thrown msg) ∧
  ∃ d, durationSchema (JStr val) = Parsed d.
Proof.
  intros Hval. rewrite durationSchema_string, Hval.
  apply validation_re_spec in Hval as (ds & u & -> & Hne & Hall & Hu).
  rewrite (duration_transform_parsed ds u Hne Hall Hu).
  rewrite (parts_re_exec ds u Hne Hall Hu).
  split_and!; [by eexists | done | by eexists].
Qed.

Lemma durationSchema_rematch_total_witness :
  test validation_re "15m" = true ∧
  (is_Some (exec parts_re "15m") ∧
   (∀ msg, duration_transform "15m" ≠ Thrown msg) ∧
   ∃ d, durationSchema (JStr "15m") = Parsed d).
Proof.
  split; [reflexivity | apply (durationSchema_rematch_total "15m"); reflexivity].
Defined.

(** C8. For every string accepted by [durationSchema], the [toJSON] of
    the parsed duration returns that string unchanged. *)
Theorem durationSchema_toJSON_roundtrip val d :
  durationSchema (JStr val) = Parsed d → serialize d = val.
Proof.
  rewrite durationSchema_string.
  destruct (test validation_re val); [|done].
  unfold duration_transform.
  destruct (exec parts_re val) as [parts|]; [|done].
  by intros [= <-].
Qed.

Lemma durationSchema_toJSON_roundtrip_witness :
  ∃ d, durationSchema (JStr "90s") = Parsed d ∧ serialize d = "90s".
Proof.
  eexists. split; [reflexivity|].
  apply (durationSchema_toJSON_roundtrip "90s"). reflexivity.
Defined.

Example metadataSchema_defaults :
  metadataSchema (JObj [("source", JStr "host.name"); ("extra", JBool true)])
    = Parsed {| source := "host.name"; destination := "host.name";
                limit := JsNumber.of_Z 1000 |}.
Proof. reflexivity. Qed.

Example metadataSchema_half :
  metadataSchema
    (JObj [("source", JStr "host.name"); ("limit", JNum (Fin (Q2Qc (1 # 2))))])
    = Issues [custom ["limit"] "limit should be greater than 1"].
Proof. reflexivity. Qed.

Example metadataSchema_zero_and_empty :
  metadataSchema
    (JObj [("source", JStr "host.name"); ("destination", JStr EmptyString);
           ("limit", JNum (JsNumber.of_Z 0))])
    = Issues [custom ["limit"] "limit should be greater than 1";
              custom ["destination"] "destination should not be empty"].
Proof. reflexivity. Qed.

Example metadataSchema_nan :
  metadataSchema (JObj [("source", JStr "host.name"); ("limit", JNum NaN)])
    = Issues [builtin "invalid_union"].
Proof. reflexivity. Qed.

Example metadataSchema_no_source :
  metadataSchema (JObj [("destination", JStr "host.name")])
    = Issues [builtin "invalid_union"].
Proof. reflexivity. Qed.

(** C4. [metadataSchema] accepts an object exactly when its resolved
    limit is at least 1 and its resolved source and destination are
    non-empty strings, and then parses to the resolved fields; a limit of
    1 is accepted.  A string [s] parses to the object with [s] as source
    and destination and 1000 as limit, and is rejected exactly when it is
    empty. *)
Theorem metadataSchema_accepts :
  (∀ fields m,
     metadataSchema (JObj fields) = Parsed m ↔
     resolved fields = Some m ∧
     JsNumber.geb (limit m) (JsNumber.of_Z 1) = true ∧
     source m ≠ EmptyString ∧ destination m ≠ EmptyString) ∧
  (∀ src,
     src ≠ EmptyString →
     metadataSchema (JObj [("source", JStr src); ("limit", JNum (JsNumber.of_Z 1))])
       = Parsed {| source := src; destination := src;
                   limit := JsNumber.of_Z 1 |}) ∧
  (∀ s,
     metadataSchema (JStr s) =
       if is_empty s
       then Issues [custom ["source"] "source should not be empty";
                    custom ["destination"] "destination should not be empty"]
       else Parsed {| source := s; destination := s;
                      limit := JsNumber.of_Z 1000 |}) ∧
  (∀ s, accepts metadataSchema (JStr s) ↔ s ≠ EmptyString).
Proof.
  assert (∀ s,
     metadataSchema (JStr s) =
       if is_empty s
       then Issues [custom ["source"] "source should not be empty";
                    custom ["destination"] "destination should not be empty"]
       else Parsed {| source := s; destination := s;
                      limit := JsNumber.of_Z 1000 |}) as Hstr.
  { intros s. unfold metadataSchema, z_superRefine, z_or, z_transform. simpl.
    unfold metadata_refine. simpl. rewrite string_length_0. by destruct s. }
  assert (∀ fields m,
     metadataSchema (JObj fields) = Parsed m ↔
     resolved fields = Some m ∧
     JsNumber.geb (limit m) (JsNumber.of_Z 1) = true ∧
     source m ≠ EmptyString ∧ destination m ≠ EmptyString) as Hobj.
  { intros fields m.
    unfold metadataSchema, z_superRefine, z_or, z_transform, metadata_object,
      resolved.
    rewrite at_least_1, <- (and_assoc _ _ (_ ∧ _)), <- metadata_refine_nil.
    destruct (get fields "source") as [| | | |src| |]; simpl;
      try (split; [done | intros [? _]; done]).
    destruct (get fields "destination") as [| | | |dst| |]; simpl;
      try (destruct (z_optional _ _); split; [done | intros [? _]; done]).
    all: destruct (get fields "limit") as [| | |lim| | |]; simpl;
      try (split; [done | intros [? _]; done]).
    all: try (rewrite refine_parsed; split;
              [ intros [<- ?]; done | intros ([= <-] & ? & ?); done ]).
    all: destruct lim as [| |q|]; simpl;
      try (rewrite refine_parsed; split;
           [ intros [<- ?]; done | intros ([= <-] & ? & ?); done ]).
    all: split; [done | intros ([= <-] & ? & ?); done]. }
  split_and!; [exact Hobj | | exact Hstr |].
  - intros src Hsrc. apply Hobj. split_and!; try done.
  - intros s. unfold accepts. rewrite Hstr. destruct s; simpl.
    + split; [intros [? ?]; done | done].
    + split; [done | eauto].
Qed.

End SchemaFacts.


(** ** The authentications query *)

Module QueryFacts.
Import JsString JsNumber Json Lodash Authentications.

Section build_query_facts.
Variable createQueryFilterClauses : value → list value.
Variable reduceFields : list string → list (string * string) → list string.

Local Abbreviation buildQuery :=
  (Authentications.buildQuery createQueryFilterClauses reduceFields).
Local Abbreviation dslQuery :=
  (Authentications.dslQuery createQueryFilterClauses reduceFields).
Local Abbreviation buildQuery_with_cursor :=
  (Authentications.buildQuery_with_cursor createQueryFilterClauses reduceFields).
Local Abbreviation buildQuery_no_cursor :=
  (Authentications.buildQuery_no_cursor createQueryFilterClauses reduceFields).
Local Abbreviation buildQuery_without_cursor :=
  (Authentications.buildQuery_without_cursor createQueryFilterClauses reduceFields).



End build_query_facts.

(** Stand-ins for the two helpers of [utils/build_query], to run the
    statements on: a non-empty filter object is the one clause, and the
    requested fields are looked up in the field map. *)
Definition sample_createQueryFilterClauses (filterQuery : value) : list value :=
  match filterQuery with
  | JObj (_ :: _) => [filterQuery]
  | _ => []
  end.

Definition sample_reduceFields (fields : list string)
    (fieldMap : list (string * string)) : list string :=
  omap (fun f => snd <$> List.find (fun kv => String.eqb (kv.1) f) fieldMap) fields.

Definition sample_options : AuthorizationsRequestOptions := {|
  timerange := {| from := JsNumber.of_Z 1546300800000;
                  to := JsNumber.of_Z 1546387200000 |};
  pagination := {| limit := JsNumber.of_Z 10; cursor := Some "elastic" |};
  fields := ["latest"; "to.name"; "unknown"];
  filterQuery := JObj [("match_all", JObj [])];
  sourceConfiguration :=
    {| fields_of := {| timestamp := "@timestamp" |};
       auditbeatAlias := "auditbeat-*" |};
|}.

Definition sample_buildQuery : AuthorizationsRequestOptions → value :=
  Authentications.buildQuery sample_createQueryFilterClauses sample_reduceFields.

(** The same request on an index whose timestamp field is named
    [__proto__]. *)
Definition proto_options : AuthorizationsRequestOptions := {|
  timerange := timerange sample_options;
  pagination := pagination sample_options;
  fields := fields sample_options;
  filterQuery := filterQuery sample_options;
  sourceConfiguration :=
    {| fields_of := {| timestamp := "__proto__" |};
       auditbeatAlias := "auditbeat-*" |};
|}.




(** The copy also loses an [undefined] stored under a name that objects
    inherit. *)
Example buildQuery_drops_inherited_undefined :
  let options := {|
    timerange := timerange sample_options;
    pagination := pagination sample_options;
    fields := fields sample_options;
    filterQuery := JObj [("toString", JUndefined); ("match_all", JObj [])];
    sourceConfiguration := sourceConfiguration sample_options |} in
  sample_createQueryFilterClauses (filterQuery options)
    = [JObj [("toString", JUndefined); ("match_all", JObj [])]] ∧
  firstn 1 (match get_path (sample_buildQuery options) filter_path with
            | JArr clauses => clauses
            | _ => []
            end)
    = [JObj [("match_all", JObj [])]].
Proof. split; reflexivity. Qed.


End QueryFacts.

(** ** The autocomplete factories *)

Module AutocompleteFacts.
Import JsString JsArray Quoting Autocomplete.

(** C10. [getQuotedText] is idempotent, and its result starts and ends
    with a double quote, for non-empty inputs as for the empty one. *)
Theorem getQuotedText_idempotent :
  (∀ t, getQuotedText (getQuotedText t) = getQuotedText t) ∧
  (∀ t, startsWith (getQuotedText t) dquote = true ∧
        endsWith (getQuotedText t) dquote = true).
Proof.
  split.
  - intros t. destruct (getQuotedText_delimited t) as [Hs He].
    by apply getQuotedText_fixed.
  - exact getQuotedText_delimited.
Qed.

Section compatible_functions.
Variable allFunctions : list FunctionDefinition.
Variable FullSignature : Type.
Variable declaration : FullSignature → string.
Variable getFunctionSignatures : FunctionDefinition → list FullSignature.
Variable buildFunctionDocumentation :
  list FullSignature → option (list string) → string.
Variable toUpperCase : string → string.
Variable localeCompare : string → string → Z.

Local Abbreviation suggestion :=
  (getSuggestionFunctionDefinition FullSignature declaration
     getFunctionSignatures buildFunctionDocumentation toUpperCase).
Local Abbreviation compatible :=
  (getCompatibleFunctionDefinition allFunctions FullSignature declaration
     getFunctionSignatures buildFunctionDocumentation toUpperCase
     localeCompare).

(** The property of [getCompatibleFunctionDefinition] for one call: the
    result is the list of the suggestions of some functions, which are
    the functions of the tables that [keep] lets through, ordered by
    name. *)
Definition suggests_exactly (keep : FunctionDefinition → bool)
    (result : option (list SuggestionRawDefinition)) : Prop :=
  ∃ fns, result = mapM suggestion fns ∧
         fns ≡ₚ List.filter keep allFunctions ∧
         StronglySorted (byName localeCompare) fns.

Lemma kept_code command opt ignored fn :
  kept command opt None ignored fn =
    supported command opt fn && negb (includes (default [] ignored) (name fn)).
Proof.
  unfold kept. rewrite andb_true_r. f_equal.
  destruct opt as [o|]; [by rewrite supported_spec | done].
Qed.

Lemma kept_code_types command opt rts ignored fn :
  kept command opt (Some rts) ignored fn =
    supported command opt fn && negb (includes (default [] ignored) (name fn))
    && returnsOneOf rts fn.
Proof.
  unfold kept. rewrite returnsOneOf_spec. do 2 f_equal.
  destruct opt as [o|]; [by rewrite supported_spec | done].
Qed.

(** C7, amended. For a comparator that orders names consistently,
    [getCompatibleFunctionDefinition] returns the suggestions of exactly
    the functions that support the command (or the option, when the
    option is a non-empty string), whose name is not ignored and, when
    return types are given, that have a signature and either [any] as
    first type or a signature returning one of the types; the functions
    come in ascending order of name. *)
Theorem getCompatibleFunctionDefinition_exact command opt returnTypes ignored :
  (∀ a b, (localeCompare a b ≤ 0)%Z ∨ (localeCompare b a ≤ 0)%Z) →
  (∀ a b c, (localeCompare a b ≤ 0)%Z → (localeCompare b c ≤ 0)%Z →
            (localeCompare a c ≤ 0)%Z) →
  suggests_exactly (kept command opt returnTypes ignored)
    (compatible command opt returnTypes ignored).
Proof.
  intros Htotal Htrans.
  assert (∀ l, StronglySorted (byName localeCompare)
                 (JsArray.sort (compareByName localeCompare) l)) as Hsorted.
  { intros l. apply sort_StronglySorted.
    - intros x y. apply Htotal.
    - intros x y z. apply Htrans. }
  unfold suggests_exactly, getCompatibleFunctionDefinition, fnSupportedByCommand.
  destruct returnTypes as [rts|].
  - eexists. split_and!; [reflexivity | | ].
    + rewrite (filter_Permutation _ _ _ (sort_Permutation _ _)).
      rewrite filter_filter.
      erewrite filter_ext; [reflexivity|].
      intros fn. simpl. by rewrite kept_code_types.
    + apply filter_StronglySorted, Hsorted.
  - eexists. split_and!; [reflexivity | | apply Hsorted].
    rewrite sort_Permutation.
    erewrite filter_ext; [reflexivity|].
    intros fn. simpl. by rewrite kept_code.
Qed.

End compatible_functions.

(** *** A small instance of the tables and helpers

    Three definitions shaped like those of the missing tables, and
    stand-ins for the helpers: names compared by code units, ASCII upper
    case, a full signature rendered as a string. *)

Definition number_to_number : Signature :=
  {| params := ["number"]; returnType := "number" |}.

Definition sample_avg : FunctionDefinition := {|
  fn_type := "agg"; name := "avg";
  description := "Returns the average of the values in a field";
  supportedCommands := ["stats"; "inlinestats"; "metrics"];
  supportedOptions := None;
  signatures := [number_to_number];
  examples := None;
|}.

Definition sample_concat : FunctionDefinition := {|
  fn_type := "eval"; name := "concat";
  description := "Concatenates two or more strings.";
  supportedCommands := ["stats"; "eval"; "where"; "row"; "sort"];
  supportedOptions := Some ["by"];
  signatures := [{| params := ["string"; "string"]; returnType := "string" |}];
  examples := None;
|}.

Definition sample_abs : FunctionDefinition := {|
  fn_type := "eval"; name := "abs";
  description := "Returns the absolute value.";
  supportedCommands := ["stats"; "eval"; "where"; "row"; "sort"];
  supportedOptions := Some ["by"];
  signatures := [number_to_number];
  examples := None;
|}.

Definition sample_functions : list FunctionDefinition :=
  [sample_avg; sample_concat; sample_abs].

Definition sample_localeCompare (a b : string) : Z :=
  match String.compare a b with
  | Lt => -1
  | Eq => 0
  | Gt => 1
  end.

Definition ascii_upper (c : ascii) : ascii :=
  let n := N_of_ascii c in
  if ((97 <=? n) && (n <=? 122))%N then ascii_of_N (n - 32) else c.

Fixpoint sample_toUpperCase (s : string) : string :=
  match s with
  | EmptyString => EmptyString
  | String c s' => String (ascii_upper c) (sample_toUpperCase s')
  end.

Definition sample_getFunctionSignatures (fn : FunctionDefinition) : list string :=
  (fun sg =>
     sample_toUpperCase (name fn) +:+ "(" +:+ String.concat ", " (params sg)
       +:+ ") : " +:+ returnType sg) <$> signatures fn.

Definition sample_buildFunctionDocumentation (sigs : list string)
    (_ : option (list string)) : string :=
  String.concat "; " sigs.

Definition sample_suggestion : FunctionDefinition → option SuggestionRawDefinition :=
  getSuggestionFunctionDefinition string id sample_getFunctionSignatures
    sample_buildFunctionDocumentation sample_toUpperCase.

Definition sample_compatible
  : string → option string → option (list string) → option (list string)
    → option (list SuggestionRawDefinition) :=
  getCompatibleFunctionDefinition sample_functions string id
    sample_getFunctionSignatures sample_buildFunctionDocumentation
    sample_toUpperCase sample_localeCompare.

Definition labels (r : option (list SuggestionRawDefinition))
  : option (list string) :=
  fmap (M:=option) (fmap (M:=list) label) r.

Lemma sample_localeCompare_le a b :
  (sample_localeCompare a b ≤ 0)%Z ↔ String.le a b.
Proof.
  unfold sample_localeCompare, String.le, String.leb.
  destruct (String.compare a b); simpl; split; try done; lia.
Qed.

Lemma sample_localeCompare_total a b :
  (sample_localeCompare a b ≤ 0)%Z ∨ (sample_localeCompare b a ≤ 0)%Z.
Proof. rewrite !sample_localeCompare_le. apply String.le_total. Qed.

Lemma sample_localeCompare_trans a b c :
  (sample_localeCompare a b ≤ 0)%Z → (sample_localeCompare b c ≤ 0)%Z →
  (sample_localeCompare a c ≤ 0)%Z.
Proof. rewrite !sample_localeCompare_le. apply transitivity. Qed.

Example sample_compatible_eval_numbers :
  labels (sample_compatible "eval" None (Some ["number"]) None)
    = Some ["ABS(number) : number"].
Proof. reflexivity. Qed.

Example sample_compatible_eval_any :
  labels (sample_compatible "eval" None (Some ["any"]) (Some []))
    = Some ["ABS(number) : number"; "CONCAT(string, string) : string"].
Proof. reflexivity. Qed.

Example sample_compatible_by_option :
  labels (sample_compatible "stats" (Some "by") None (Some ["abs"]))
    = Some ["CONCAT(string, string) : string"].
Proof. reflexivity. Qed.

Lemma getCompatibleFunctionDefinition_exact_witness :
  (∀ a b, (sample_localeCompare a b ≤ 0)%Z ∨ (sample_localeCompare b a ≤ 0)%Z) ∧
  (∀ a b c, (sample_localeCompare a b ≤ 0)%Z → (sample_localeCompare b c ≤ 0)%Z →
            (sample_localeCompare a c ≤ 0)%Z) ∧
  suggests_exactly sample_functions string id sample_getFunctionSignatures
    sample_buildFunctionDocumentation sample_toUpperCase sample_localeCompare
    (kept "eval" None (Some ["number"]) None)
    (sample_compatible "eval" None (Some ["number"]) None).
Proof.
  split; [exact sample_localeCompare_total|].
  split; [exact sample_localeCompare_trans|].
  apply (getCompatibleFunctionDefinition_exact sample_functions string id
           sample_getFunctionSignatures sample_buildFunctionDocumentation
           sample_toUpperCase sample_localeCompare "eval" None
           (Some ["number"]) None).
  - exact sample_localeCompare_total.
  - exact sample_localeCompare_trans.
Defined.

(** C7 as worded fails on an option that is the empty string: the code
    falls back to the command and suggests the functions of [eval],
    where the wording asks for the functions that support the option
    (there is none). *)
Lemma getCompatibleFunctionDefinition_empty_option :
  ¬ suggests_exactly sample_functions string id sample_getFunctionSignatures
      sample_buildFunctionDocumentation sample_toUpperCase sample_localeCompare
      (kept_as_worded "eval" (Some EmptyString) None None)
      (sample_compatible "eval" (Some EmptyString) None None).
Proof.
  intros (fns & Hres & Hperm & _).
  change (List.filter _ sample_functions) with (@nil FunctionDefinition) in Hperm.
  apply Permutation_nil_r in Hperm as ->.
  vm_compute in Hres. discriminate Hres.
Qed.

(** The other place where the wording and the code part: with [any] as
    first type, a function without signatures is let through by the
    wording and dropped by the code. *)
Example any_needs_a_signature :
  let bare := {| fn_type := "eval"; name := "bare"; description := "";
                 supportedCommands := ["eval"]; supportedOptions := None;
                 signatures := []; examples := None |} in
  kept_as_worded "eval" None (Some ["any"]) None bare = true ∧
  returnsOneOf ["any"] bare = false.
Proof. split; reflexivity. Qed.

End AutocompleteFacts.

(** ** [buildFieldsDefinitions] on a sample i18n service *)

Module PurityFacts.
Import JsString Json Authentications Autocomplete.

(** Stand-ins to run [buildFieldsDefinitions] on: the i18n service holds
    the messages loaded for the locale, by id, and [translate] answers
    the loaded message or, when there is none, the default message; a
    text is quoted when it holds a character that is neither a letter, a
    digit, an underscore nor a dot. *)
Definition sample_translate (messages : list (string * string))
    (id defaultMessage : string) : string :=
  default defaultMessage
    (snd <$> List.find (fun kv => String.eqb (kv.1) id) messages).

Definition plain_char (c : ascii) : bool :=
  let n := N_of_ascii c in
  ((48 <=? n) && (n <=? 57) || (65 <=? n) && (n <=? 90)
   || (97 <=? n) && (n <=? 122) || (n =? 95) || (n =? 46))%N.

Fixpoint sample_shouldBeQuotedText (s : string) : bool :=
  match s with
  | EmptyString => false
  | String c s' => negb (plain_char c) || sample_shouldBeQuotedText s'
  end.

Fixpoint sample_escapeTicks (s : string) : string :=
  match s with
  | EmptyString => EmptyString
  | String c s' =>
      if Ascii.eqb c "`" then String c (String c (sample_escapeTicks s'))
      else String c (sample_escapeTicks s')
  end.

Definition sample_buildFieldsDefinitions
  : list (string * string) → list string → list SuggestionRawDefinition :=
  Autocomplete.buildFieldsDefinitions sample_shouldBeQuotedText
    sample_escapeTicks (list (string * string)) sample_translate.

Definition french : list (string * string) :=
  [(fieldDefinition_id, "Champ de la table en entree")].

Example sample_buildFieldsDefinitions_default :
  (fun d => (label d, text d, detail d))
    <$> sample_buildFieldsDefinitions [] ["bytes"; "user-agent"]
  = [("bytes", "bytes", "Field specified by the input table");
     ("user-agent", "`user-agent`", "Field specified by the input table")].
Proof. reflexivity. Qed.

(** On the same fields, two sets of loaded messages give two different
    lists: they differ by the [detail] that [translate] answers. *)
Example buildFieldsDefinitions_reads_i18n :
  sample_buildFieldsDefinitions [] ["bytes"]
    ≠ sample_buildFieldsDefinitions french ["bytes"].
Proof. intros H. vm_compute in H. discriminate H. Qed.

End PurityFacts.

(** * Further coverage of the sources *)

(** ** More on the matcher *)

Module RegexFacts.
Import JsString Regex.

(** Greedy matching of a run that ends the input. *)
Lemma plus_loop_greedy_end cl pre : ∀ i caps k r,
  pre ≠ EmptyString → all_in cl pre = true →
  k (i + String.length pre) EmptyString caps = Some r →
  plus_loop cl i pre caps k = Some r.
Proof.
  induction pre as [|d pre IH]; intros i caps k r Hne Hall Hk; [done|].
  simpl in *. apply andb_true_iff in Hall as [Hd Hall]. rewrite Hd.
  destruct pre as [|d' pre'].
  - simpl. by replace (S i) with (i + 1) by lia.
  - rewrite (IH (S i) caps k r); try done.
    by replace (S i + String.length (String d' pre'))
      with (i + S (String.length (String d' pre'))) by lia.
Qed.

(** An expression that starts with the start anchor matches at index 0
    or not at all. *)
Lemma anchored_only_at_start r s : ∀ i, exec_from (Cat Bol r) (S i) s = None.
Proof. induction s as [|c s IH]; intros i; simpl; [done | apply IH]. Qed.

Lemma anchored_test r s :
  test (Cat Bol r) s = true ↔ is_Some (attempt (Cat Bol r) 0 s).
Proof.
  unfold test, exec. split.
  - destruct s as [|c s]; simpl.
    + destruct (attempt (Cat Bol r) 0 EmptyString); [eauto | done].
    + rewrite anchored_only_at_start.
      destruct (attempt (Cat Bol r) 0 (String c s)); [eauto | done].
  - intros [m Hm]. by rewrite (exec_from_attempt _ _ _ _ Hm).
Qed.

Lemma append_nil_r_eq (a : string) : a +:+ EmptyString = a.
Proof. induction a as [|x a IH]; str_simpl; [reflexivity | by rewrite IH]. Qed.

Lemma in_chars cs c : in_class (Chars cs) c = true ↔ c ∈ cs.
Proof.
  simpl. rewrite existsb_exists. split.
  - intros (x & Hin & Heq). apply Ascii.eqb_eq in Heq as ->.
    by apply list_elem_of_In.
  - intros Hin. exists c. split; [by apply list_elem_of_In | apply Ascii.eqb_refl].
Qed.

End RegexFacts.

(** ** The other schemas of the entity definition *)

Module EntitySchemaMore.
Import JsString JsNumber Json Regex Zod EntitySchema.

(** [new RegExp(/^[0-9]{1,}\.[0-9]{1,}\.[0-9]{1,}$/)]: the class [[0-9]]
    holds the same characters as [\d], and [{1,}] is [+]. *)
Definition dot : charclass := Chars ["."]%char.

Definition semVerRegex : regex :=
  Cat Bol
    (Cat (Plus Digit) (Cat (Class dot)
       (Cat (Plus Digit) (Cat (Class dot) (Cat (Plus Digit) Eol))))).

(** [s.refine(check, { message })] *)
Definition z_refine {A} (s : schema A) (check : A → bool) (message : string)
  : schema A := fun v =>
  match s v with
  | Parsed a => if check a then Parsed a else Issues [custom [] message]
  | o => o
  end.

Definition semVerSchema : schema string :=
  z_refine z_string (fun maybeSemVer => test semVerRegex maybeSemVer)
    "The string does use the Semantic Versioning (Semver) format of {major}.{minor}.{patch} (e.g., 1.0.0), ensure each part contains only digits.".

(** The checks a string schema accumulates, in the order they were
    chained.  All of them run: each failure adds its issue, and
    [toUpperCase] rewrites the data seen by the checks after it. *)
Inductive string_check :=
| CheckLength (n : nat)
| CheckRegex (re : regex)
| CheckToUpperCase.

Section string_checks.

(** [String.prototype.toUpperCase] of the engine. *)
Variable toUpperCase : string → string.

Fixpoint run_checks (checks : list string_check) (data : string)
  : string * list issue :=
  match checks with
  | [] => (data, [])
  | CheckLength n :: rest =>
      let found :=
        if Nat.ltb n (String.length data) then [builtin "too_big"]
        else if Nat.ltb (String.length data) n then [builtin "too_small"]
        else [] in
      let '(data', issues) := run_checks rest data in
      (data', found ++ issues)
  | CheckRegex re :: rest =>
      let found := if test re data then [] else [builtin "invalid_string"] in
      let '(data', issues) := run_checks rest data in
      (data', found ++ issues)
  | CheckToUpperCase :: rest => run_checks rest (toUpperCase data)
  end.

(** [z.string()] followed by chained checks. *)
Definition z_string_with (checks : list string_check) : schema string := fun v =>
  match v with
  | JStr s =>
      match run_checks checks s with
      | (data, []) => Parsed data
      | (_, issues) => Issues issues
      end
  | _ => Issues [builtin "invalid_type"]
  end.

(** The letters of [[a-zA-Z]]. *)
Definition is_letter (c : ascii) : bool :=
  let n := N_of_ascii c in
  ((65 <=? n) && (n <=? 90) || (97 <=? n) && (n <=? 122))%N.

Definition letters : list ascii :=
  List.filter is_letter (ascii_of_nat <$> seq 0 256).

(** [/[a-zA-Z]/] *)
Definition letter_re : regex := Class (Chars letters).

(** [z.string().length(1).regex(/[a-zA-Z]/).toUpperCase()].  The length
    counts the one code unit of a letter as the one byte it is here. *)
Definition metricNameSchema : schema string :=
  z_string_with [CheckLength 1; CheckRegex letter_re; CheckToUpperCase].

End string_checks.

(** [z.boolean()] *)
Definition z_boolean : schema bool := fun v =>
  match v with
  | JBool b => Parsed b
  | _ => Issues [builtin "invalid_type"]
  end.

Record identityField := {
  field : string;
  optional : bool;
}.

(** [z.object({ field: z.string(), optional: z.boolean() })] *)
Definition identity_object : schema identityField := fun v =>
  match v with
  | JObj fields =>
      let f := z_string (get fields "field") in
      let o := z_boolean (get fields "optional") in
      match f, o with
      | Parsed f', Parsed o' => Parsed {| field := f'; optional := o' |}
      | _, _ => Issues (issues_of "field" f ++ issues_of "optional" o)
      end
  | _ => Issues [builtin "invalid_type"]
  end.

Definition identityFieldsSchema : schema identityField :=
  z_or identity_object
    (z_transform z_string
       (fun value => Parsed {| field := value; optional := false |})).

(** The parsed metadata written back as an object. *)
Definition metadata_to_object (m : metadata) : value :=
  JObj [("source", JStr (source m));
        ("destination", JStr (destination m));
        ("limit", JNum (limit m))].

End EntitySchemaMore.

Module SchemaMoreFacts.
Import JsString JsNumber Json Regex Zod EntitySchema RegexFacts SchemaFacts
  EntitySchemaMore.

Local Arguments in_class : simpl never.

(** The number written by a run of decimal digits. *)
Definition digits_value (ds : string) : N := decimal (leading_digits ds).

Example digits_value_15 : digits_value "15" = 15%N.
Proof. reflexivity. Qed.

Lemma digit_is_plain c :
  is_digit c = true →
  Ascii.is_space c = false ∧ c ≠ "-"%char ∧ c ≠ "+"%char.
Proof.
  destruct c as [[] [] [] [] [] [] [] []]; intros H; try discriminate H;
    split_and!; done.
Qed.

Lemma parseInt_digits ds :
  ds ≠ EmptyString → all_in Digit ds = true →
  parseInt (Some ds)
  = JsNumber.round (Q2Qc (inject_Z (Z.of_N (digits_value ds)))).
Proof.
  destruct ds as [|c ds]; [done|]. intros _ Hall.
  simpl in Hall. apply andb_true_iff in Hall as [Hc _].
  unfold in_class in Hc.
  destruct (digit_is_plain c Hc) as (Hsp & Hm & Hp).
  unfold parseInt, digits_value. simpl. rewrite Hsp.
  assert ((let '(neg, body) :=
             match String c ds with
             | String "-"%char t' => (true, t')
             | String "+"%char t' => (false, t')
             | _ => (false, String c ds)
             end in
           match leading_digits body with
           | [] => NaN
           | d :: l =>
               JsNumber.round
                 (Q2Qc (inject_Z
                    (if neg then - Z.of_N (decimal (d :: l))
                     else Z.of_N (decimal (d :: l)))))
           end)
          = match leading_digits (String c ds) with
            | [] => NaN
            | d :: l =>
                JsNumber.round (Q2Qc (inject_Z (Z.of_N (decimal (d :: l)))))
            end) as ->.
  { clear -Hm Hp. destruct c as [[] [] [] [] [] [] [] []]; done. }
  simpl. by rewrite Hc.
Qed.

(** Digits that write more than 53 bits are rounded, and a long run of
    them overflows. *)
Example parseInt_rounds :
  parseInt (Some "9007199254740993") = JsNumber.of_Z 9007199254740992 ∧
  parseInt (Some (String.concat "" (replicate 40 "9999999999")))
    = PosInf.
Proof.
  split; vm_compute; try reflexivity; f_equal; apply Qc_is_canon; reflexivity.
Qed.

(** X1. [durationSchema] accepts a value exactly when it is a string
    made of one or more decimal digits followed by one of the characters
    [m], [|], [d], [s], [h].  The transform then hands to
    [moment.duration] the last character as unit and, when the digits
    write an integer of at most 53 bits, that integer as value; the
    accepted text is the JSON form of the result. *)
Theorem durationSchema_accepts_exactly v :
  (∀ d, durationSchema v = Parsed d →
     ∃ ds u,
       v = JStr (ds +:+ String u EmptyString) ∧
       ds ≠ EmptyString ∧ all_in Digit ds = true ∧
       u ∈ ["m"; "|"; "d"; "s"; "h"]%char ∧
       dur_unit d = Some (String u EmptyString) ∧
       serialize d = ds +:+ String u EmptyString ∧
       ((Z.of_N (digits_value ds) ≤ 2 ^ 53)%Z →
        dur_value d = JsNumber.of_Z (Z.of_N (digits_value ds)))) ∧
  (∀ ds u,
     v = JStr (ds +:+ String u EmptyString) →
     ds ≠ EmptyString → all_in Digit ds = true →
     u ∈ ["m"; "|"; "d"; "s"; "h"]%char →
     ∃ d, durationSchema v = Parsed d).
Proof.
  split.
  - intros d. destruct v as [| | | |val| |]; try done.
    rewrite durationSchema_string.
    destruct (test validation_re val) eqn:Hval; [|done].
    apply validation_re_spec in Hval as (ds & u & -> & Hne & Hall & Hu).
    rewrite (duration_transform_parsed ds u Hne Hall Hu).
    rewrite (parseInt_digits ds Hne Hall).
    intros [= <-]. exists ds, u. split_and!; [done..| | done | done |].
    + by apply in_chars.
    + intros Hle. apply round_integer. lia.
  - intros ds u -> Hne Hall Hu.
    apply (in_chars ["m"; "|"; "d"; "s"; "h"]%char) in Hu.
    rewrite durationSchema_string.
    assert (test validation_re (ds +:+ String u EmptyString) = true) as ->.
    { apply validation_re_spec. by exists ds, u. }
    rewrite (duration_transform_parsed ds u Hne Hall Hu). by eexists.
Qed.

Lemma dot_is_dot c : in_class dot c = true ↔ c = "."%char.
Proof. unfold dot. rewrite in_chars. apply list_elem_of_singleton. Qed.

Lemma dot_not_digit : in_class Digit "."%char = false.
Proof. reflexivity. Qed.

Example semVerSchema_ok : semVerSchema (JStr "8.15.0") = Parsed "8.15.0".
Proof. reflexivity. Qed.

Example semVerSchema_rejects :
  (fun s => test semVerRegex s)
    <$> ["1.0"; "1.0.0.0"; "v1.0.0"; "1.0.0-rc1"; "1..0"; ".1.0"; "1.0."]
  = [false; false; false; false; false; false; false].
Proof. reflexivity. Qed.

Lemma semVerRegex_spec s :
  test semVerRegex s = true ↔
  ∃ a b c,
    s = a +:+ String "." (b +:+ String "." c) ∧
    (a ≠ EmptyString ∧ all_in Digit a = true) ∧
    (b ≠ EmptyString ∧ all_in Digit b = true) ∧
    (c ≠ EmptyString ∧ all_in Digit c = true).
Proof.
  unfold semVerRegex. rewrite anchored_test. unfold attempt. simpl. split.
  - intros [m Hm].
    match type of Hm with
    | match ?x with _ => _ end = _ => destruct x as [r|] eqn:Hl; [|done]
    end.
    apply plus_loop_inv in Hl as (a & rest & -> & Ha & Halla & Hk).
    destruct rest as [|c1 rest]; [done|].
    destruct (in_class dot c1) eqn:Hc1; [|done].
    apply dot_is_dot in Hc1 as ->.
    apply plus_loop_inv in Hk as (b & rest' & -> & Hb & Hallb & Hk).
    destruct rest' as [|c2 rest']; [done|].
    destruct (in_class dot c2) eqn:Hc2; [|done].
    apply dot_is_dot in Hc2 as ->.
    apply plus_loop_inv in Hk as (c & rest'' & -> & Hc & Hallc & Hk).
    destruct rest''; [|done].
    exists a, b, c. rewrite append_nil_r_eq. done.
  - intros (a & b & c & -> & [Ha Halla] & [Hb Hallb] & [Hc Hallc]).
    erewrite plus_loop_greedy; [|done|done|exact dot_not_digit|].
    2:{ rewrite (proj2 (dot_is_dot _) eq_refl).
        erewrite plus_loop_greedy; [|done|done|exact dot_not_digit|].
        - reflexivity.
        - rewrite (proj2 (dot_is_dot _) eq_refl).
          erewrite plus_loop_greedy_end; [|done|done|reflexivity].
          reflexivity. }
    eauto.
Qed.

(** X2. [semVerSchema] accepts a value exactly when it is a string of
    three non-empty runs of decimal digits separated by two dots, and
    returns the string as it is; signs, prefixes, pre-release tags and a
    fourth part are all refused. *)
Theorem semVerSchema_accepts_exactly v s :
  semVerSchema v = Parsed s ↔
  v = JStr s ∧
  ∃ major minor patch,
    s = major +:+ String "." (minor +:+ String "." patch) ∧
    (major ≠ EmptyString ∧ all_in Digit major = true) ∧
    (minor ≠ EmptyString ∧ all_in Digit minor = true) ∧
    (patch ≠ EmptyString ∧ all_in Digit patch = true).
Proof.
  rewrite <- semVerRegex_spec. unfold semVerSchema, z_refine, z_string.
  destruct v as [| | | |x| |]; try (split; [done | intros [? _]; done]).
  destruct (test semVerRegex x) eqn:E.
  - split; [by intros [= <-] | by intros [[= <-] _]].
  - split; [done | intros [[= <-] H]; congruence].
Qed.

Lemma letters_spec c : in_class (Chars letters) c = is_letter c.
Proof. destruct c as [[] [] [] [] [] [] [] []]; reflexivity. Qed.

Lemma letter_re_single c :
  test letter_re (String c EmptyString) = is_letter c.
Proof.
  unfold test, exec, letter_re. simpl. unfold attempt. simpl.
  rewrite letters_spec. by destruct (is_letter c).
Qed.

Section metric_name.
Variable toUpperCase : string → string.

Lemma metricNameSchema_parsed v r :
  metricNameSchema toUpperCase v = Parsed r ↔
  ∃ c, v = JStr (String c EmptyString) ∧ is_letter c = true ∧
       r = toUpperCase (String c EmptyString).
Proof.
  unfold metricNameSchema, z_string_with.
  destruct v as [| | | |s| |];
    try (split; [done | intros (c & ? & _); done]).
  destruct s as [|c [|c' s]].
  - split; [done | intros (c & ? & _); done].
  - unfold run_checks. rewrite letter_re_single.
    destruct (is_letter c) eqn:Hc; simpl.
    + split; [intros [= <-]; eauto | intros (c0 & [= <-] & _ & ->); done].
    + split; [done | intros (c0 & [= <-] & ? & _); congruence].
  - unfold run_checks.
    change (Nat.ltb 1 (String.length (String c (String c' s)))) with true.
    cbv iota. split; [done | intros (c0 & ? & _); done].
Qed.


(** X3. [metricNameSchema] accepts a value exactly when it is a string of
    one letter among [a-z] and [A-Z], and returns that letter in upper
    case; the empty string, longer strings, digits and other signs are
    refused. *)
Theorem metricNameSchema_accepts_exactly v r :
  metricNameSchema toUpperCase v = Parsed r ↔
  ∃ c, v = JStr (String c EmptyString) ∧ is_letter c = true ∧
       r = toUpperCase (String c EmptyString).
Proof. apply metricNameSchema_parsed. Qed.

End metric_name.

Example metricNameSchema_a :
  metricNameSchema AutocompleteFacts.sample_toUpperCase (JStr "a") = Parsed "A".
Proof. reflexivity. Qed.

Example metricNameSchema_long :
  metricNameSchema AutocompleteFacts.sample_toUpperCase (JStr "ab")
    = Issues [builtin "too_big"].
Proof. reflexivity. Qed.

Example metricNameSchema_digit :
  metricNameSchema AutocompleteFacts.sample_toUpperCase (JStr "1")
    = Issues [builtin "invalid_string"].
Proof. reflexivity. Qed.

Example metricNameSchema_empty :
  metricNameSchema AutocompleteFacts.sample_toUpperCase (JStr EmptyString)
    = Issues [builtin "too_small"; builtin "invalid_string"].
Proof. reflexivity. Qed.

(** The union of [metadataSchema], before the refinement. *)
Definition metadata_union : schema metadata :=
  z_or
    (z_transform metadata_object
       (fun m => Parsed
          {| source := in_source m;
             destination := default (in_source m) (in_destination m);
             limit := default (JsNumber.of_Z 1000) (in_limit m) |}))
    (z_transform z_string
       (fun value => Parsed
          {| source := value; destination := value;
             limit := JsNumber.of_Z 1000 |})).

Lemma metadataSchema_unfold v :
  metadataSchema v = z_superRefine metadata_union metadata_refine v.
Proof. reflexivity. Qed.

Lemma metadata_union_limit v m :
  metadata_union v = Parsed m → JsNumber.is_nan (limit m) = false.
Proof.
  unfold metadata_union, z_or, z_transform, metadata_object.
  destruct v as [| | | |s| |fields]; try done.
  - simpl. by intros [= <-].
  - destruct (get fields "source") as [| | | |src| |]; simpl; try done.
    destruct (get fields "destination") as [| | | |dst| |]; simpl;
      try (destruct (z_optional _ _); done).
    all: destruct (get fields "limit") as [| | |lim| | |]; simpl; try done.
    all: try (by intros [= <-]).
    all: destruct (JsNumber.is_nan lim) eqn:E; simpl; try done.
    all: by intros [= <-].
Qed.

Lemma metadata_union_object m :
  JsNumber.is_nan (limit m) = false →
  metadata_union (metadata_to_object m) = Parsed m.
Proof.
  intros Hnan. unfold metadata_union, z_or, z_transform, metadata_object,
    metadata_to_object. simpl. rewrite Hnan. simpl. by destruct m.
Qed.

(** X4. What [metadataSchema] returns is a fixed point of the schema:
    written back as an object with its three keys, the parsed metadata
    is accepted again and parses to itself. *)
Theorem metadataSchema_reparse v m :
  metadataSchema v = Parsed m →
  metadataSchema (metadata_to_object m) = Parsed m.
Proof.
  rewrite (metadataSchema_unfold v). unfold z_superRefine.
  destruct (metadata_union v) as [m'| |] eqn:Hu; try done.
  intros H. apply refine_parsed in H as [-> Href].
  rewrite metadataSchema_unfold. unfold z_superRefine.
  rewrite (metadata_union_object m (metadata_union_limit v m Hu)).
  by rewrite Href.
Qed.

Lemma metadataSchema_reparse_witness :
  metadataSchema (JStr "host.name")
    = Parsed {| source := "host.name"; destination := "host.name";
                limit := JsNumber.of_Z 1000 |} ∧
  metadataSchema
    (metadata_to_object
       {| source := "host.name"; destination := "host.name";
          limit := JsNumber.of_Z 1000 |})
    = Parsed {| source := "host.name"; destination := "host.name";
                limit := JsNumber.of_Z 1000 |}.
Proof.
  split; [reflexivity|].
  apply (metadataSchema_reparse (JStr "host.name")). reflexivity.
Defined.

(** X5. The string shorthand of [metadataSchema] is the object that
    gives only the source: for every string, empty or not, both inputs
    end the same way, with the same data or the same issues. *)
Theorem metadataSchema_shorthand s :
  metadataSchema (JStr s) = metadataSchema (JObj [("source", JStr s)]).
Proof.
  rewrite (metadataSchema_unfold (JStr s)).
  rewrite (metadataSchema_unfold (JObj [("source", JStr s)])).
  unfold z_superRefine.
  assert (metadata_union (JStr s) = metadata_union (JObj [("source", JStr s)]))
    as <-; reflexivity.
Qed.

(** X6. [identityFieldsSchema] accepts a string, which becomes the field
    with [optional] false, or an object whose [field] is a string and
    whose [optional] is a boolean, and nothing else: an object that
    leaves [optional] out is refused, and an empty field name is
    accepted. *)
Theorem identityFieldsSchema_accepts_exactly v r :
  identityFieldsSchema v = Parsed r ↔
  (v = JStr (field r) ∧ optional r = false) ∨
  (∃ fields, v = JObj fields ∧
             get fields "field" = JStr (field r) ∧
             get fields "optional" = JBool (optional r)).
Proof.
  unfold identityFieldsSchema, z_or, z_transform, identity_object.
  destruct v as [| | | |s| |fields]; simpl;
    try (split; [done | intros [[? _]|(? & ? & _)]; done]).
  - split.
    + intros [= <-]. by left.
    + intros [[[= ->] Ho]|(? & ? & _)]; [|done]. destruct r; simpl in *.
      by subst.
  - destruct (get fields "field") as [| | | |f| |] eqn:Hf;
      destruct (get fields "optional") as [| |o| | | |] eqn:Ho; simpl;
      try (split; [done | intros [[? _]|(? & [= <-] & ? & ?)]; congruence]).
    split.
    + intros [= <-]. right. by exists fields.
    + intros [[? _]|(? & [= <-] & Hf' & Ho')]; [done|].
      rewrite Hf in Hf'. rewrite Ho in Ho'.
      injection Hf' as ->. injection Ho' as ->. by destruct r.
Qed.

Example identityFieldsSchema_without_optional :
  identityFieldsSchema (JObj [("field", JStr "host.name")])
    = Issues [builtin "invalid_union"].
Proof. reflexivity. Qed.

End SchemaMoreFacts.

(** ** The metric schemas *)

Module MetricSchema.
Import JsString JsNumber Json Regex Zod EntitySchema EntitySchemaMore.

(** [enum BasicAggregations], each member with the string it stands
    for. *)
Inductive BasicAggregations :=
| agg_avg
| agg_max
| agg_min
| agg_sum
| agg_value_count
| agg_cardinality
| agg_last_value
| agg_std_deviation.

Definition aggregation_value (a : BasicAggregations) : string :=
  match a with
  | agg_avg => "avg"
  | agg_max => "max"
  | agg_min => "min"
  | agg_sum => "sum"
  | agg_value_count => "value_count"
  | agg_cardinality => "cardinality"
  | agg_last_value => "last_value"
  | agg_std_deviation => "std_deviation"
  end.

Definition all_aggregations : list BasicAggregations :=
  [agg_avg; agg_max; agg_min; agg_sum; agg_value_count; agg_cardinality;
   agg_last_value; agg_std_deviation].

Definition find_aggregation (s : string) : option BasicAggregations :=
  List.find (fun a => String.eqb (aggregation_value a) s) all_aggregations.

(** [z.nativeEnum(BasicAggregations)] *)
Definition basicAggregationsSchema : schema BasicAggregations := fun v =>
  match v with
  | JStr s =>
      match find_aggregation s with
      | Some a => Parsed a
      | None => Issues [builtin "invalid_enum_value"]
      end
  | JNum n =>
      if JsNumber.is_nan n then Issues [builtin "invalid_type"]
      else Issues [builtin "invalid_enum_value"]
  | _ => Issues [builtin "invalid_type"]
  end.

(** [z.literal(text)] *)
Definition z_literal (text : string) : schema string := fun v =>
  match v with
  | JStr s => if String.eqb s text then Parsed s
              else Issues [builtin "invalid_literal"]
  | _ => Issues [builtin "invalid_literal"]
  end.

(** [z.optional(z.string())] *)
Definition filterSchema : schema (option string) := z_optional z_string.

Record basicMetricWithField := {
  basic_name : string;
  basic_aggregation : BasicAggregations;
  basic_field : string;
  basic_filter : option string;
}.

Record docCountMetric := {
  doc_count_name : string;
  doc_count_filter : option string;
}.

Record percentileMetric := {
  percentile_name : string;
  percentile_field : string;
  percentile_percentile : number;
  percentile_filter : option string;
}.

(** [z.infer<typeof metricSchema>] *)
Inductive Metric :=
| Basic (m : basicMetricWithField)
| DocCount (m : docCountMetric)
| Percentile (m : percentileMetric).

Section metric_schemas.
Variable toUpperCase : string → string.

Definition basicMetricWithFieldSchema : schema basicMetricWithField := fun v =>
  match v with
  | JObj fields =>
      let n := metricNameSchema toUpperCase (get fields "name") in
      let a := basicAggregationsSchema (get fields "aggregation") in
      let f := z_string (get fields "field") in
      let fl := filterSchema (get fields "filter") in
      match n, a, f, fl with
      | Parsed n', Parsed a', Parsed f', Parsed fl' =>
          Parsed {| basic_name := n'; basic_aggregation := a';
                    basic_field := f'; basic_filter := fl' |}
      | _, _, _, _ =>
          Issues (issues_of "name" n ++ issues_of "aggregation" a
                    ++ issues_of "field" f ++ issues_of "filter" fl)
      end
  | _ => Issues [builtin "invalid_type"]
  end.

Definition docCountMetricSchema : schema docCountMetric := fun v =>
  match v with
  | JObj fields =>
      let n := metricNameSchema toUpperCase (get fields "name") in
      let a := z_literal "doc_count" (get fields "aggregation") in
      let fl := filterSchema (get fields "filter") in
      match n, a, fl with
      | Parsed n', Parsed _, Parsed fl' =>
          Parsed {| doc_count_name := n'; doc_count_filter := fl' |}
      | _, _, _ =>
          Issues (issues_of "name" n ++ issues_of "aggregation" a
                    ++ issues_of "filter" fl)
      end
  | _ => Issues [builtin "invalid_type"]
  end.

Definition percentileMetricSchema : schema percentileMetric := fun v =>
  match v with
  | JObj fields =>
      let n := metricNameSchema toUpperCase (get fields "name") in
      let a := z_literal "percentile" (get fields "aggregation") in
      let f := z_string (get fields "field") in
      let p := z_number (get fields "percentile") in
      let fl := filterSchema (get fields "filter") in
      match n, a, f, p, fl with
      | Parsed n', Parsed _, Parsed f', Parsed p', Parsed fl' =>
          Parsed {| percentile_name := n'; percentile_field := f';
                    percentile_percentile := p'; percentile_filter := fl' |}
      | _, _, _, _, _ =>
          Issues (issues_of "name" n ++ issues_of "aggregation" a
                    ++ issues_of "field" f ++ issues_of "percentile" p
                    ++ issues_of "filter" fl)
      end
  | _ => Issues [builtin "invalid_type"]
  end.

Definition wrap {A B} (f : A → B) (o : outcome A) : outcome B :=
  match o with
  | Parsed a => Parsed (f a)
  | Issues l => Issues l
  | Thrown m => Thrown m
  end.

(** [z.discriminatedUnion('aggregation', [...])]: the value under
    [aggregation] picks the one option that lists it, and that option
    alone parses the object. *)
Definition metricSchema : schema Metric := fun v =>
  match v with
  | JObj fields =>
      match get fields "aggregation" with
      | JStr a =>
          match find_aggregation a with
          | Some _ => wrap Basic (basicMetricWithFieldSchema v)
          | None =>
              if String.eqb a "doc_count"
              then wrap DocCount (docCountMetricSchema v)
              else if String.eqb a "percentile"
              then wrap Percentile (percentileMetricSchema v)
              else Issues [builtin "invalid_union_discriminator"]
          end
      | _ => Issues [builtin "invalid_union_discriminator"]
      end
  | _ => Issues [builtin "invalid_type"]
  end.

End metric_schemas.

(** What [filterSchema] lets through: an absent filter or a string. *)
Definition optional_string (v : value) : option (option string) :=
  match v with
  | JUndefined => Some None
  | JStr s => Some (Some s)
  | _ => None
  end.

End MetricSchema.

Module MetricSchemaFacts.
Import JsString JsNumber Json Regex Zod EntitySchema EntitySchemaMore
  SchemaMoreFacts MetricSchema.

Lemma z_string_parsed v s : z_string v = Parsed s ↔ v = JStr s.
Proof. destruct v; simpl; split; congruence. Qed.

Lemma z_number_parsed v n :
  z_number v = Parsed n ↔ v = JNum n ∧ JsNumber.is_nan n = false.
Proof.
  destruct v as [| | |x| | |]; simpl; try (split; [done | intros [? _]; done]).
  destruct (JsNumber.is_nan x) eqn:E; split.
  - done.
  - intros [[= ->] ?]. congruence.
  - by intros [= ->].
  - by intros [[= ->] _].
Qed.

Lemma filterSchema_parsed v o :
  filterSchema v = Parsed o ↔ optional_string v = Some o.
Proof.
  unfold filterSchema, z_optional.
  destruct v; simpl; split; congruence.
Qed.

Lemma find_aggregation_value a : find_aggregation (aggregation_value a) = Some a.
Proof. by destruct a. Qed.

Lemma find_aggregation_Some s a :
  find_aggregation s = Some a → s = aggregation_value a.
Proof.
  unfold find_aggregation. intros H. apply find_some in H as [_ H].
  by apply String.eqb_eq in H.
Qed.

Lemma basicAggregationsSchema_parsed v a :
  basicAggregationsSchema v = Parsed a ↔ v = JStr (aggregation_value a).
Proof.
  destruct v as [| | |n|s| |]; simpl; try (split; done).
  - by destruct (JsNumber.is_nan n).
  - destruct (find_aggregation s) as [a'|] eqn:E; split.
    + intros [= <-]. by rewrite <- (find_aggregation_Some s a').
    + intros [= ->]. rewrite find_aggregation_value in E. congruence.
    + done.
    + intros [= ->]. by rewrite find_aggregation_value in E.
Qed.

Lemma z_literal_parsed t v s : z_literal t v = Parsed s ↔ v = JStr t ∧ s = t.
Proof.
  destruct v as [| | | |x| |]; simpl; try (split; [done | intros [? _]; done]).
  destruct (String.eqb x t) eqn:E.
  - apply String.eqb_eq in E as ->. split; [by intros [= <-] | by intros [_ ->]].
  - apply String.eqb_neq in E. split; [done | intros [[= ->] _]; done].
Qed.

Lemma find_aggregation_doc_count : find_aggregation "doc_count" = None.
Proof. reflexivity. Qed.

Lemma find_aggregation_percentile : find_aggregation "percentile" = None.
Proof. reflexivity. Qed.

Section metric_facts.
Variable toUpperCase : string → string.

Local Abbreviation metricNameSchema := (EntitySchemaMore.metricNameSchema toUpperCase).
Local Abbreviation metricSchema := (MetricSchema.metricSchema toUpperCase).

(** A valid metric name under [name], and a valid filter under
    [filter]. *)
Definition named (fields : list (string * value)) (name : string)
    (filter : option string) : Prop :=
  (∃ c, get fields "name" = JStr (String c EmptyString) ∧
        is_letter c = true ∧ name = toUpperCase (String c EmptyString)) ∧
  optional_string (get fields "filter") = Some filter.

Lemma named_parsed fields n fl :
  metricNameSchema (get fields "name") = Parsed n ∧
  filterSchema (get fields "filter") = Parsed fl ↔ named fields n fl.
Proof.
  unfold named.
  by rewrite (metricNameSchema_parsed toUpperCase),
    filterSchema_parsed.
Qed.

Lemma basic_parsed fields b :
  basicMetricWithFieldSchema toUpperCase (JObj fields) = Parsed b ↔
  named fields (basic_name b) (basic_filter b) ∧
  get fields "aggregation" = JStr (aggregation_value (basic_aggregation b)) ∧
  get fields "field" = JStr (basic_field b).
Proof.
  rewrite <- named_parsed, <- basicAggregationsSchema_parsed, <- z_string_parsed.
  unfold basicMetricWithFieldSchema.
  destruct (metricNameSchema (get fields "name")),
    (basicAggregationsSchema (get fields "aggregation")),
    (z_string (get fields "field")), (filterSchema (get fields "filter"));
    cbv zeta iota beta;
    (split; [try done | try (intros [[? ?] [? ?]]; done)]).
  - intros [= <-]. done.
  - intros [[[= ->] [= ->]] [[= ->] [= ->]]]. by destruct b.
Qed.

Lemma doc_count_parsed fields d :
  docCountMetricSchema toUpperCase (JObj fields) = Parsed d ↔
  named fields (doc_count_name d) (doc_count_filter d) ∧
  get fields "aggregation" = JStr "doc_count".
Proof.
  rewrite <- named_parsed.
  assert (get fields "aggregation" = JStr "doc_count" ↔
          ∃ s, z_literal "doc_count" (get fields "aggregation") = Parsed s)
    as ->.
  { split.
    - intros ->. by eexists.
    - intros [s Hs]. by apply z_literal_parsed in Hs as [-> _]. }
  unfold docCountMetricSchema.
  destruct (metricNameSchema (get fields "name")),
    (z_literal "doc_count" (get fields "aggregation")),
    (filterSchema (get fields "filter"));
    cbv zeta iota beta;
    (split; [try done | try (intros [[? ?] [? ?]]; done)]).
  - intros [= <-]. eauto.
  - intros [[[= ->] [= ->]] _]. by destruct d.
Qed.

Lemma percentile_parsed fields p :
  percentileMetricSchema toUpperCase (JObj fields) = Parsed p ↔
  named fields (percentile_name p) (percentile_filter p) ∧
  get fields "aggregation" = JStr "percentile" ∧
  get fields "field" = JStr (percentile_field p) ∧
  get fields "percentile" = JNum (percentile_percentile p) ∧
  JsNumber.is_nan (percentile_percentile p) = false.
Proof.
  assert (get fields "aggregation" = JStr "percentile" ↔
          ∃ s, z_literal "percentile" (get fields "aggregation") = Parsed s)
    as ->.
  { split.
    - intros ->. by eexists.
    - intros [s Hs]. by apply z_literal_parsed in Hs as [-> _]. }
  rewrite <- named_parsed, <- z_string_parsed, <- z_number_parsed.
  unfold percentileMetricSchema.
  destruct (metricNameSchema (get fields "name")),
    (z_literal "percentile" (get fields "aggregation")),
    (z_string (get fields "field")), (z_number (get fields "percentile")),
    (filterSchema (get fields "filter"));
    cbv zeta iota beta;
    (split; [try done | try (intros [[? ?] [[? ?] [? ?]]]; done)]).
  - intros [= <-]. split_and!; eauto.
  - intros [[[= ->] [= ->]] [_ [[= ->] [= ->]]]]. by destruct p.
Qed.

(** X7. [metricSchema] accepts exactly the objects whose [name] is one
    letter (returned in upper case), whose [filter] is absent or a
    string, and whose [aggregation] is one of the eight basic
    aggregations with a string [field], or [doc_count], or [percentile]
    with a string [field] and a number [percentile]; the parsed metric
    holds these values and nothing else of the object. *)
Theorem metricSchema_accepts_exactly v m :
  metricSchema v = Parsed m ↔
  ∃ fields, v = JObj fields ∧
    match m with
    | Basic b =>
        named fields (basic_name b) (basic_filter b) ∧
        get fields "aggregation"
          = JStr (aggregation_value (basic_aggregation b)) ∧
        get fields "field" = JStr (basic_field b)
    | DocCount d =>
        named fields (doc_count_name d) (doc_count_filter d) ∧
        get fields "aggregation" = JStr "doc_count"
    | Percentile p =>
        named fields (percentile_name p) (percentile_filter p) ∧
        get fields "aggregation" = JStr "percentile" ∧
        get fields "field" = JStr (percentile_field p) ∧
        get fields "percentile" = JNum (percentile_percentile p) ∧
        JsNumber.is_nan (percentile_percentile p) = false
    end.
Proof.
  split.
  - destruct v as [| | | | | |fields]; try done.
    intros H. exists fields. split; [done|]. revert H.
    unfold MetricSchema.metricSchema.
    destruct (get fields "aggregation") as [| | | |a| |] eqn:Ha; try done.
    destruct (find_aggregation a) as [a'|] eqn:Hf.
    { destruct (basicMetricWithFieldSchema toUpperCase (JObj fields))
        as [b| |] eqn:Hb; try done.
      intros [= <-]. apply basic_parsed in Hb. by rewrite <- Ha. }
    destruct (String.eqb a "doc_count") eqn:Hd.
    { destruct (docCountMetricSchema toUpperCase (JObj fields))
        as [d| |] eqn:Hb; try done.
      intros [= <-]. apply doc_count_parsed in Hb. by rewrite <- Ha. }
    destruct (String.eqb a "percentile") eqn:Hp; [|done].
    destruct (percentileMetricSchema toUpperCase (JObj fields))
      as [p| |] eqn:Hb; try done.
    intros [= <-]. apply percentile_parsed in Hb. by rewrite <- Ha.
  - intros (fields & -> & H). unfold MetricSchema.metricSchema.
    destruct m as [b|d|p].
    + destruct H as (Hn & Ha & Hf). rewrite Ha, find_aggregation_value.
      by rewrite (proj2 (basic_parsed fields b)).
    + destruct H as (Hn & Ha). rewrite Ha, find_aggregation_doc_count.
      change (String.eqb "doc_count" "doc_count") with true. cbv iota.
      by rewrite (proj2 (doc_count_parsed fields d)).
    + destruct H as (Hn & Ha & Hf & Hp & Hnan).
      rewrite Ha, find_aggregation_percentile.
      change (String.eqb "percentile" "doc_count") with false.
      change (String.eqb "percentile" "percentile") with true. cbv iota.
      by rewrite (proj2 (percentile_parsed fields p)).
Qed.

End metric_facts.

Example metricSchema_doc_count_drops_field :
  metricSchema AutocompleteFacts.sample_toUpperCase
    (JObj [("name", JStr "a"); ("aggregation", JStr "doc_count");
           ("field", JStr "host.name"); ("percentile", JNull)])
  = Parsed (DocCount {| doc_count_name := "A"; doc_count_filter := None |}).
Proof. reflexivity. Qed.

Example metricSchema_unknown_aggregation :
  metricSchema AutocompleteFacts.sample_toUpperCase
    (JObj [("name", JStr "a"); ("aggregation", JStr "median");
           ("field", JStr "host.name")])
  = Issues [builtin "invalid_union_discriminator"].
Proof. reflexivity. Qed.

Example metricSchema_basic_needs_field :
  metricSchema AutocompleteFacts.sample_toUpperCase
    (JObj [("name", JStr "ab"); ("aggregation", JStr "avg")])
  = Issues [under "name" (builtin "too_big"); under "field" (builtin "invalid_type")].
Proof. reflexivity. Qed.


End MetricSchemaFacts.

(** ** The other autocomplete factories *)

Module Factories.
Import JsString JsNumber JsArray Regex Quoting Autocomplete.

(** The entry of a source in [buildSourcesDefinitions]. *)
Record Source := {
  source_name : string;
  isIntegration : bool;
  source_title : option string;
}.

(** A source suggestion: the properties of a raw suggestion and the
    [isSnippet] that [buildSourcesDefinitions] writes. *)
Record SourceSuggestion := {
  raw : SuggestionRawDefinition;
  isSnippet : bool;
}.

Record ESQLRealField := {
  field_name : string;
  field_type : string;
  field_description : option string;
}.

Record CommandOptionsDefinition := {
  option_name : string;
  option_description : string;
  option_params : list string;
}.

Record CommandDefinition := {
  command_name : string;
  command_description : string;
  command_params : list string;
}.

Definition message_id (key : string) : string :=
  "kbn-esql-validation-autocomplete.esql.autocomplete." +:+ key.

(** [/s$/] and [/pattern/] *)
Definition plural_re : regex := Cat (Class (Chars ["s"]%char)) Eol.

Definition pattern_re : regex :=
  Cat (Class (Chars ["p"]%char)) (Cat (Class (Chars ["a"]%char))
    (Cat (Class (Chars ["t"]%char)) (Cat (Class (Chars ["t"]%char))
      (Cat (Class (Chars ["e"]%char)) (Cat (Class (Chars ["r"]%char))
        (Class (Chars ["n"]%char))))))).

(** [types.indexOf(x)]; [None] for -1. *)
Fixpoint indexOf (l : list string) (x : string) : option nat :=
  match l with
  | [] => None
  | y :: l' => if String.eqb y x then Some 0 else S <$> indexOf l' x
  end.

Section more_factories.

(** Taken as given, as in [Autocomplete]: the helpers of other modules,
    the engine's [toUpperCase] and number formatting, and the i18n
    service.  [timeUnitsToSuggest] is the list of the [name]s of the
    table of that name, the one property that is read. *)
Variable shouldBeQuotedText : string → bool.
Variable escapeTicks : string → string.
Variable shouldBeQuotedSource : string → bool.
Variable toUpperCase : string → string.
Variable numberToString : number → string.
Variable timeUnitsToSuggest : list string.
Variable CommandSignature : Type.
Variable getCommandDefinition : string → CommandDefinition.
Variable getCommandSignature : CommandDefinition → CommandSignature.
Variable buildDocumentation : CommandSignature → string.
Variable I18n : Type.
Variable translate : I18n → string → string → string.

(** [getSafeInsertSourceText(text)] *)
Definition getSafeInsertSourceText (text : string) : string :=
  if shouldBeQuotedSource text then getQuotedText text else text.

(** [getSuggestionBuiltinDefinition(fn)] *)
Definition getSuggestionBuiltinDefinition (fn : FunctionDefinition)
  : SuggestionRawDefinition :=
  let hasArgs :=
    existsb (fun sg => Nat.ltb 1 (length (params sg))) (signatures fn) in
  {| label := toUpperCase (name fn);
     text := if hasArgs then toUpperCase (name fn) +:+ " $0"
             else toUpperCase (name fn);
     asSnippet := Some hasArgs;
     kind := "Operator";
     detail := description fn;
     documentation := Some EmptyString;
     sortText := Some "D";
     command := if hasArgs then Some TRIGGER_SUGGESTION_COMMAND else None |}.

(** [getSuggestionCommandDefinition(command)] *)
Definition getSuggestionCommandDefinition (cmd : CommandDefinition)
  : SuggestionRawDefinition :=
  let commandDefinition := getCommandDefinition (command_name cmd) in
  let commandSignature := getCommandSignature commandDefinition in
  {| label := toUpperCase (command_name commandDefinition);
     text := match command_params commandDefinition with
             | [] => toUpperCase (command_name commandDefinition)
             | _ => toUpperCase (command_name commandDefinition) +:+ " $0"
             end;
     asSnippet := Some true;
     kind := "Method";
     detail := command_description commandDefinition;
     documentation := Some (buildDocumentation commandSignature);
     sortText := Some "A";
     command := Some TRIGGER_SUGGESTION_COMMAND |}.

(** [type.charAt(0).toUpperCase() + type.slice(1)], for a type whose
    first character is ASCII. *)
Definition titleCase (type : string) : string :=
  match type with
  | EmptyString => toUpperCase EmptyString
  | String c rest => toUpperCase (String c EmptyString) +:+ rest
  end.

(** [buildFieldsDefinitionsWithMetadata(fields)] *)
Definition buildFieldsDefinitionsWithMetadata (fields : list ESQLRealField)
  : list SuggestionRawDefinition :=
  (fun f =>
     let described := match field_description f with
                      | Some d => JsString.truthy d
                      | None => false
                      end in
     {| label := field_name f;
        text := getSafeInsertText shouldBeQuotedText escapeTicks (field_name f);
        asSnippet := None;
        kind := "Variable";
        detail := titleCase (field_type f);
        documentation :=
          match field_description f with
          | Some d =>
              if JsString.truthy d
              then Some (String "010" ("---" +:+ String "010" (String "010" d)))
              else None
          | None => None
          end;
        sortText := Some (if described then "1D" else "D");
        command := None |}) <$> fields.

(** [buildSourcesDefinitions(sources)] *)
Definition buildSourcesDefinitions (i18n : I18n) (sources : list Source)
  : list SourceSuggestion :=
  (fun s =>
     {| raw :=
          {| label := default (source_name s) (source_title s);
             text := getSafeInsertSourceText (source_name s);
             asSnippet := None;
             kind := if isIntegration s then "Class" else "Issue";
             detail :=
               if isIntegration s
               then translate i18n (message_id "integrationDefinition") "Integration"
               else translate i18n (message_id "sourceDefinition") "Index";
             documentation := None;
             sortText := Some "A";
             command := if isIntegration s
                        then Some TRIGGER_SUGGESTION_COMMAND else None |};
        isSnippet := isIntegration s |}) <$> sources.

(** [buildConstantsDefinitions(userConstants, detail, sortText)] *)
Definition buildConstantsDefinitions (i18n : I18n) (userConstants : list string)
    (detail' : option string) (sortText' : option string)
  : list SuggestionRawDefinition :=
  (fun l =>
     {| label := l; text := l; asSnippet := None; kind := "Constant";
        detail := default (translate i18n (message_id "constantDefinition")
                             "Constant") detail';
        documentation := None;
        sortText := Some (default "A" sortText');
        command := None |}) <$> userConstants.

(** [buildValueDefinitions(values, detail)] *)
Definition buildValueDefinitions (i18n : I18n) (values : list string)
    (detail' : option string) : list SuggestionRawDefinition :=
  (fun v =>
     {| label := dquote +:+ v +:+ dquote;
        text := dquote +:+ v +:+ dquote;
        asSnippet := None;
        kind := "Value";
        detail := default (translate i18n (message_id "valueDefinition")
                             "Literal value") detail';
        documentation := None; sortText := None; command := None |})
    <$> values.

(** [buildOptionDefinition(option, isAssignType)] *)
Definition buildOptionDefinition (opt : CommandOptionsDefinition)
    (isAssignType : bool) : SuggestionRawDefinition :=
  let completeItem :=
    {| label := toUpperCase (option_name opt);
       text := toUpperCase (option_name opt);
       asSnippet := None;
       kind := "Reference";
       detail := option_description opt;
       documentation := None;
       sortText := Some "1";
       command := None |} in
  if isAssignType || negb (Nat.eqb (length (option_params opt)) 0)
  then {| label := label completeItem;
          text := if isAssignType
                  then toUpperCase (option_name opt) +:+ " = $0"
                  else toUpperCase (option_name opt) +:+ " $0";
          asSnippet := Some true;
          kind := kind completeItem;
          detail := detail completeItem;
          documentation := documentation completeItem;
          sortText := sortText completeItem;
          command := Some TRIGGER_SUGGESTION_COMMAND |}
  else completeItem.

(** [getUnitDuration(unit)] *)
Definition getUnitDuration (unit : number) : list string :=
  let filteredTimeLiteral :=
    List.filter
      (fun name =>
         let result := test plural_re name in
         if JsNumber.ltb (JsNumber.of_Z 1) unit then result else negb result)
      timeUnitsToSuggest in
  (fun name => numberToString unit +:+ " " +:+ name) <$> filteredTimeLiteral.

(** [getCompatibleLiterals(commandName, types, names)] *)
Definition getCompatibleLiterals (i18n : I18n) (commandName : string)
    (types : list string) (names : option (list string))
  : list SuggestionRawDefinition :=
  (if includes types "number"
   then if String.eqb commandName "limit"
        then buildConstantsDefinitions i18n ["10"; "100"; "1000"]
               (Some EmptyString) None
        else []
   else [])
  ++ (if includes types "time_literal"
      then buildConstantsDefinitions i18n
             (getUnitDuration (JsNumber.of_Z 1)) None None
      else [])
  ++ (if includes types "time_literal_unit"
      then buildConstantsDefinitions i18n timeUnitsToSuggest None None
      else [])
  ++ (if includes types "string"
      then match names with
           | Some names =>
               let index := default 0 (indexOf types "string") in
               if test pattern_re (default "undefined" (names !! index))
               then buildConstantsDefinitions i18n
                      [if String.eqb commandName "grok"
                       then dquote +:+ "%{WORD:firstWord}" +:+ dquote
                       else dquote +:+ "%{firstWord}" +:+ dquote]
                      (Some (translate i18n (message_id "aPatternString")
                               "A pattern string"))
                      None
               else buildConstantsDefinitions i18n ["string"]
                      (Some EmptyString) None
           | None => []
           end
      else []).

End more_factories.

End Factories.

(** ** More on the function suggestions *)

Module CompatibleFacts.
Import JsString JsArray Quoting Autocomplete AutocompleteFacts.

Lemma filter_all {A} (f : A → bool) (l : list A) :
  (∀ x, x ∈ l → f x = true) → List.filter f l = l.
Proof.
  induction l as [|x l IH]; intros H; simpl; [done|].
  rewrite (H x) by by left. rewrite IH; [done|].
  intros y Hy. apply H. by right.
Qed.

Lemma elem_of_filter_1 {A} (f : A → bool) (l : list A) x :
  x ∈ List.filter f l → x ∈ l.
Proof.
  intros H. apply list_elem_of_In in H. apply filter_In in H as [H _].
  by apply list_elem_of_In.
Qed.

Section compatible_more.
Variable allFunctions : list FunctionDefinition.
Variable FullSignature : Type.
Variable declaration : FullSignature → string.
Variable getFunctionSignatures : FunctionDefinition → list FullSignature.
Variable buildFunctionDocumentation :
  list FullSignature → option (list string) → string.
Variable toUpperCase : string → string.
Variable localeCompare : string → string → Z.

Local Abbreviation suggestion :=
  (getSuggestionFunctionDefinition FullSignature declaration
     getFunctionSignatures buildFunctionDocumentation toUpperCase).
Local Abbreviation compatible :=
  (getCompatibleFunctionDefinition allFunctions FullSignature declaration
     getFunctionSignatures buildFunctionDocumentation toUpperCase
     localeCompare).
Local Abbreviation supportedByCommand :=
  (fnSupportedByCommand allFunctions localeCompare).

(** The functions whose suggestions are returned. *)
Definition suggested (command : string) (opt : option string)
    (returnTypes : option (list string)) (ignored : option (list string))
  : list FunctionDefinition :=
  match returnTypes with
  | None => supportedByCommand command opt (default [] ignored)
  | Some rts =>
      List.filter (returnsOneOf rts)
        (supportedByCommand command opt (default [] ignored))
  end.

Lemma compatible_suggested command opt returnTypes ignored :
  compatible command opt returnTypes ignored
    = mapM suggestion (suggested command opt returnTypes ignored).
Proof. unfold getCompatibleFunctionDefinition, suggested. by destruct returnTypes. Qed.

Lemma supportedByCommand_elem command opt ignored fn :
  fn ∈ supportedByCommand command opt ignored → fn ∈ allFunctions.
Proof.
  unfold fnSupportedByCommand. rewrite sort_Permutation.
  apply elem_of_filter_1.
Qed.

Lemma suggested_Permutation command opt returnTypes ignored :
  suggested command opt returnTypes ignored
    ≡ₚ List.filter (kept command opt returnTypes ignored) allFunctions.
Proof.
  unfold suggested, fnSupportedByCommand. destruct returnTypes as [rts|].
  - rewrite (filter_Permutation _ _ _ (sort_Permutation _ _)).
    rewrite filter_filter.
    erewrite filter_ext; [reflexivity|].
    intros fn. simpl. by rewrite kept_code_types.
  - rewrite sort_Permutation.
    erewrite filter_ext; [reflexivity|].
    intros fn. simpl. by rewrite kept_code.
Qed.

Lemma suggested_elem command opt returnTypes ignored fn :
  fn ∈ suggested command opt returnTypes ignored → fn ∈ allFunctions.
Proof. rewrite suggested_Permutation. apply elem_of_filter_1. Qed.

(** X8. When every function of the tables has at least one full
    signature, [getCompatibleFunctionDefinition] does not throw and
    returns one suggestion for each function it keeps. *)
Theorem getCompatibleFunctionDefinition_one_each
    command opt returnTypes ignored :
  (∀ fn, fn ∈ allFunctions → getFunctionSignatures fn ≠ []) →
  ∃ suggestions,
    compatible command opt returnTypes ignored = Some suggestions ∧
    length suggestions
      = length (List.filter (kept command opt returnTypes ignored) allFunctions).
Proof.
  intros Hsig. rewrite compatible_suggested.
  destruct (mapM_is_Some_2 suggestion (suggested command opt returnTypes ignored))
    as [l Hl].
  { apply Forall_forall. intros fn Hfn. apply suggested_elem in Hfn.
    simpl. unfold getSuggestionFunctionDefinition.
    specialize (Hsig fn Hfn).
    destruct (getFunctionSignatures fn) as [|sg sgs]; [done|]. by eexists. }
  exists l. split; [done|].
  rewrite <- (length_mapM _ _ _ Hl). by rewrite suggested_Permutation.
Qed.

(** X9. When every function of the tables has at least one signature,
    return types that start with [any] filter nothing: the result is the
    one of the call that gives no return types. *)
Theorem getCompatibleFunctionDefinition_any
    command opt returnTypes ignored :
  (∀ fn, fn ∈ allFunctions → signatures fn ≠ []) →
  getCompatibleFunctionDefinition allFunctions FullSignature declaration
    getFunctionSignatures buildFunctionDocumentation toUpperCase localeCompare
    command opt (Some ("any" :: returnTypes)) ignored
  = getCompatibleFunctionDefinition allFunctions FullSignature declaration
      getFunctionSignatures buildFunctionDocumentation toUpperCase localeCompare
      command opt None ignored.
Proof.
  intros Hsig. rewrite !compatible_suggested. f_equal. unfold suggested.
  apply filter_all. intros fn Hfn. apply supportedByCommand_elem in Hfn.
  specialize (Hsig fn Hfn). unfold returnsOneOf.
  destruct (signatures fn) as [|sg sgs]; [done|]. reflexivity.
Qed.

End compatible_more.

Lemma sample_functions_signed fn :
  fn ∈ sample_functions → sample_getFunctionSignatures fn ≠ [].
Proof.
  intros H. repeat (apply elem_of_cons in H as [->|H]; [done|]).
  by apply elem_of_nil in H.
Qed.

Lemma sample_functions_have_signatures fn :
  fn ∈ sample_functions → signatures fn ≠ [].
Proof.
  intros H. repeat (apply elem_of_cons in H as [->|H]; [done|]).
  by apply elem_of_nil in H.
Qed.

Lemma getCompatibleFunctionDefinition_one_each_witness :
  (∀ fn, fn ∈ sample_functions → sample_getFunctionSignatures fn ≠ []) ∧
  ∃ suggestions,
    sample_compatible "eval" None None (Some ["abs"]) = Some suggestions ∧
    length suggestions
      = length (List.filter (kept "eval" None None (Some ["abs"])) sample_functions).
Proof.
  split; [exact sample_functions_signed|].
  apply (getCompatibleFunctionDefinition_one_each sample_functions string id
           sample_getFunctionSignatures sample_buildFunctionDocumentation
           sample_toUpperCase sample_localeCompare "eval" None None (Some ["abs"])).
  exact sample_functions_signed.
Defined.

Lemma getCompatibleFunctionDefinition_any_witness :
  (∀ fn, fn ∈ sample_functions → signatures fn ≠ []) ∧
  sample_compatible "eval" None (Some ["any"; "number"]) None
    = sample_compatible "eval" None None None.
Proof.
  split; [exact sample_functions_have_signatures|].
  apply (getCompatibleFunctionDefinition_any sample_functions string id
           sample_getFunctionSignatures sample_buildFunctionDocumentation
           sample_toUpperCase sample_localeCompare "eval" None ["number"] None).
  exact sample_functions_have_signatures.
Defined.

End CompatibleFacts.

(** ** The other factories *)

Module FactoriesFacts.
Import JsString JsNumber JsArray Regex Quoting Autocomplete Factories.

Lemma prefix_refl_eq (p : string) : startsWith p p = true.
Proof.
  unfold startsWith. induction p as [|c p IH]; simpl; [done|].
  by destruct (ascii_dec c c).
Qed.

Lemma plural_re_from s : ∀ i,
  match exec_from plural_re i s with Some _ => true | None => false end
    = endsWith s "s".
Proof.
  induction s as [|c s IH]; intros i; [reflexivity|].
  simpl exec_from. unfold attempt. simpl run.
  change (String.eqb (String c s) "s") with (Ascii.eqb c "s" && String.eqb s EmptyString).
  change (endsWith (String c s) "s")
    with (String.eqb (String c s) "s" || endsWith s "s").
  change (String.eqb (String c s) "s") with (Ascii.eqb c "s" && String.eqb s EmptyString).
  destruct (Ascii.eqb c "s") eqn:Hc; simpl.
  - destruct s as [|c' s']; [reflexivity|]. simpl is_empty. cbv iota.
    apply (IH (S i)).
  - apply (IH (S i)).
Qed.

Lemma plural_re_spec s : test plural_re s = endsWith s "s".
Proof. apply plural_re_from. Qed.

Lemma endsWith_after_space a s :
  endsWith (a +:+ String " " s) "s" = endsWith s "s".
Proof.
  induction a as [|c a IH]; str_simpl.
  - reflexivity.
  - change (endsWith (String c (a +:+ String " " s)) "s")
      with (String.eqb (String c (a +:+ String " " s)) "s"
            || endsWith (a +:+ String " " s) "s").
    rewrite IH.
    assert (String.eqb (String c (a +:+ String " " s)) "s" = false) as ->; [|done].
    apply String.eqb_neq. destruct a; str_simpl; discriminate.
Qed.

Example pattern_re_inside : test pattern_re "grok_pattern_v2" = true.
Proof. reflexivity. Qed.

Example pattern_re_undefined : test pattern_re "undefined" = false.
Proof. reflexivity. Qed.

Section factories_facts.
Variable shouldBeQuotedText : string → bool.
Variable escapeTicks : string → string.
Variable shouldBeQuotedSource : string → bool.
Variable toUpperCase : string → string.
Variable numberToString : number → string.
Variable timeUnitsToSuggest : list string.
Variable CommandSignature : Type.
Variable getCommandDefinition : string → CommandDefinition.
Variable getCommandSignature : CommandDefinition → CommandSignature.
Variable buildDocumentation : CommandSignature → string.
Variable I18n : Type.
Variable translate : I18n → string → string → string.

Local Abbreviation getSuggestionCommandDefinition :=
  (Factories.getSuggestionCommandDefinition toUpperCase CommandSignature
     getCommandDefinition getCommandSignature buildDocumentation).
Local Abbreviation getUnitDuration :=
  (Factories.getUnitDuration numberToString timeUnitsToSuggest).
Local Abbreviation getCompatibleLiterals :=
  (Factories.getCompatibleLiterals numberToString timeUnitsToSuggest I18n translate).
Local Abbreviation buildConstantsDefinitions :=
  (Factories.buildConstantsDefinitions I18n translate).
Local Abbreviation buildValueDefinitions :=
  (Factories.buildValueDefinitions I18n translate).
Local Abbreviation buildSourcesDefinitions :=
  (Factories.buildSourcesDefinitions shouldBeQuotedSource I18n translate).
Local Abbreviation getSafeInsertSourceText :=
  (Factories.getSafeInsertSourceText shouldBeQuotedSource).
Local Abbreviation buildFieldsDefinitionsWithMetadata :=
  (Factories.buildFieldsDefinitionsWithMetadata shouldBeQuotedText escapeTicks
     toUpperCase).
Local Abbreviation buildOptionDefinition :=
  (Factories.buildOptionDefinition toUpperCase).
Local Abbreviation getSuggestionBuiltinDefinition :=
  (Factories.getSuggestionBuiltinDefinition toUpperCase).

Lemma filter_length_split {A} (f : A → bool) (l : list A) :
  length (List.filter f l) + length (List.filter (fun x => negb (f x)) l)
    = length l.
Proof.
  induction l as [|x l IH]; simpl; [done|].
  destruct (f x); simpl; lia.
Qed.

(** X10. [getUnitDuration(unit)] suggests plural units for a unit above
    1 and singular units otherwise: all its texts end in [s] in the first
    case and none does in the second; taken together, the suggestions
    for a unit above 1 and for a unit not above 1 are as many as the time
    units of the table. *)
Theorem getUnitDuration_plural :
  (∀ unit,
     Forall (fun text => endsWith text "s" = JsNumber.ltb (JsNumber.of_Z 1) unit)
       (getUnitDuration unit)) ∧
  (∀ few many,
     JsNumber.ltb (JsNumber.of_Z 1) few = false →
     JsNumber.ltb (JsNumber.of_Z 1) many = true →
     length (getUnitDuration few) + length (getUnitDuration many)
       = length timeUnitsToSuggest).
Proof.
  split.
  - intros unit. unfold Factories.getUnitDuration.
    apply Forall_fmap, Forall_forall. intros name Hin.
    unfold compose. cbv beta.
    change (" " +:+ name) with (String " " name).
    rewrite endsWith_after_space.
    apply list_elem_of_In, filter_In in Hin as [_ Hf].
    rewrite plural_re_spec in Hf.
    destruct (JsNumber.ltb (JsNumber.of_Z 1) unit); [done|].
    by apply negb_true_iff in Hf.
  - intros few many Hfew Hmany. unfold Factories.getUnitDuration.
    rewrite Hfew, Hmany, !length_fmap, Nat.add_comm.
    apply (filter_length_split (test plural_re)).
Qed.

Lemma buildConstantsDefinitions_shape i18n constants detail' sortText' :
  Forall (fun s => kind s = "Constant" ∧ text s = label s ∧
                   asSnippet s = None ∧ command s = None ∧
                   sortText s = Some (default "A" sortText'))
    (buildConstantsDefinitions i18n constants detail' sortText').
Proof.
  unfold Factories.buildConstantsDefinitions. apply Forall_fmap, Forall_forall.
  intros c _. simpl. done.
Qed.

(** X11. Whatever the command, the types and the names,
    [getCompatibleLiterals] returns constants only: each suggestion has
    the kind [Constant], inserts its own label, sorts under [A] and is no
    snippet. *)
Theorem getCompatibleLiterals_constants i18n commandName types names :
  Forall (fun s => kind s = "Constant" ∧ text s = label s ∧
                   asSnippet s = None ∧ command s = None ∧
                   sortText s = Some "A")
    (getCompatibleLiterals i18n commandName types names).
Proof.
  unfold Factories.getCompatibleLiterals.
  repeat first
    [ apply Forall_nil_2
    | apply (buildConstantsDefinitions_shape _ _ _ None)
    | apply Forall_app_2
    | match goal with
      | |- Forall _ (if ?b then _ else _) => destruct b
      | |- Forall _ (match ?o with Some _ => _ | None => _ end) => destruct o
      end ].
Qed.

(** X12. Without the type [time_literal], [time_literal_unit] or
    [string], [getCompatibleLiterals] suggests the three limits 10, 100
    and 1000 when the command is [limit] and a number is expected, and
    nothing in every other case. *)
Theorem getCompatibleLiterals_numbers i18n commandName types names :
  includes types "time_literal" = false →
  includes types "time_literal_unit" = false →
  includes types "string" = false →
  label <$> getCompatibleLiterals i18n commandName types names
    = if includes types "number" && String.eqb commandName "limit"
      then ["10"; "100"; "1000"] else [].
Proof.
  intros H1 H2 H3. unfold Factories.getCompatibleLiterals.
  rewrite H1, H2, H3, !app_nil_r.
  destruct (includes types "number"), (String.eqb commandName "limit");
    reflexivity.
Qed.

Lemma delimited_longer v : dquote +:+ v +:+ dquote ≠ v.
Proof.
  intros H. apply (f_equal String.length) in H.
  rewrite !length_append in H. simpl in H. lia.
Qed.

(** X13. [buildValueDefinitions] always wraps a value in double quotes,
    as label and as text alike; it agrees with [getQuotedText] on the
    values that are not yet quoted and differs from it on those that
    are, which it quotes again. *)
Theorem buildValueDefinitions_quotes i18n values detail' :
  Forall2
    (fun v s =>
       label s = text s ∧
       text s = dquote +:+ v +:+ dquote ∧
       (text s = getQuotedText v ↔
        startsWith v dquote && endsWith v dquote = false))
    values (buildValueDefinitions i18n values detail').
Proof.
  unfold Factories.buildValueDefinitions. apply Forall2_fmap_r, Forall_Forall2_diag.
  apply Forall_forall. intros v _. simpl. split_and!; [done..|].
  unfold getQuotedText.
  destruct (startsWith v dquote && endsWith v dquote); split; try done.
  intros H. by apply delimited_longer in H.
Qed.

(** X14. The text of a source suggestion is the source name or the name
    between double quotes, and it is the name itself whenever the name is
    already between double quotes; the label is the title when there is
    one; the trigger command and [isSnippet] are set for integrations
    and for nothing else, and [asSnippet] is never set. *)
Theorem buildSourcesDefinitions_shape i18n sources :
  Forall2
    (fun src s =>
       (text (raw s) = source_name src ∨
        text (raw s) = dquote +:+ source_name src +:+ dquote) ∧
       (startsWith (source_name src) dquote && endsWith (source_name src) dquote
          = true → text (raw s) = source_name src) ∧
       label (raw s) = default (source_name src) (source_title src) ∧
       (command (raw s) = Some TRIGGER_SUGGESTION_COMMAND
        ↔ isIntegration src = true) ∧
       isSnippet s = isIntegration src ∧
       asSnippet (raw s) = None)
    sources (buildSourcesDefinitions i18n sources).
Proof.
  unfold Factories.buildSourcesDefinitions.
  apply Forall2_fmap_r, Forall_Forall2_diag, Forall_forall.
  intros src _. simpl. unfold Factories.getSafeInsertSourceText, getQuotedText.
  split_and!; try done.
  - destruct (shouldBeQuotedSource (source_name src)); [|by left].
    destruct (startsWith _ _ && endsWith _ _); [by left | by right].
  - intros ->. by destruct (shouldBeQuotedSource (source_name src)).
  - by destruct (isIntegration src).
Qed.

(** X15. In [buildFieldsDefinitionsWithMetadata] a field carries a
    documentation exactly when its description is a non-empty string,
    and exactly then it sorts under [1D], ahead of the [D] of the other
    fields; labels are the field names, in the order given. *)
Theorem buildFieldsDefinitionsWithMetadata_described fields :
  label <$> buildFieldsDefinitionsWithMetadata fields = field_name <$> fields ∧
  Forall2
    (fun f s =>
       let described :=
         match field_description f with
         | Some d => negb (is_empty d)
         | None => false
         end in
       (is_Some (documentation s) ↔ described = true) ∧
       sortText s = Some (if described then "1D" else "D"))
    fields (buildFieldsDefinitionsWithMetadata fields).
Proof.
  unfold Factories.buildFieldsDefinitionsWithMetadata. split.
  - rewrite <- list_fmap_compose. by apply list_fmap_ext.
  - apply Forall2_fmap_r, Forall_Forall2_diag, Forall_forall.
    intros f _. simpl. unfold JsString.truthy.
    destruct (field_description f) as [d|]; simpl.
    + destruct (is_empty d); simpl.
      * split; [|done]. split; [by intros [? ?] | done].
      * split; [|done]. split; [done | eauto].
    + split; [|done]. split; [by intros [? ?] | done].
Qed.

(** X16. A suggestion that carries the trigger command is a snippet: for
    functions, operators, commands and options, [command] is set only
    together with [asSnippet]; and the text of an operator, a command or
    an option starts with its label. *)
Theorem trigger_only_on_snippets :
  (∀ FullSignature declaration getFunctionSignatures
     buildFunctionDocumentation fn s,
     getSuggestionFunctionDefinition FullSignature declaration
       getFunctionSignatures buildFunctionDocumentation toUpperCase fn = Some s →
     asSnippet s = Some true) ∧
  (∀ fn, let s := getSuggestionBuiltinDefinition fn in
         (is_Some (command s) ↔ asSnippet s = Some true) ∧
         startsWith (text s) (label s) = true) ∧
  (∀ cmd, let s := getSuggestionCommandDefinition cmd in
          (is_Some (command s) ↔ asSnippet s = Some true) ∧
          startsWith (text s) (label s) = true) ∧
  (∀ opt isAssignType,
     let s := buildOptionDefinition opt isAssignType in
     (is_Some (command s) ↔ asSnippet s = Some true) ∧
     startsWith (text s) (label s) = true).
Proof.
  split_and!.
  - intros FS decl gfs bfd fn s. unfold getSuggestionFunctionDefinition.
    destruct (head (gfs fn)); simpl; [|done]. by intros [= <-].
  - intros fn. unfold Factories.getSuggestionBuiltinDefinition. simpl.
    destruct (existsb _ _); simpl.
    + split; [split; eauto | apply startsWith_append].
    + split; [split; [by intros [? ?] | done] | apply prefix_refl_eq].
  - intros cmd. unfold Factories.getSuggestionCommandDefinition. simpl.
    split; [split; eauto|].
    destruct (command_params _); [apply prefix_refl_eq | apply startsWith_append].
  - intros opt isAssignType. unfold Factories.buildOptionDefinition. simpl.
    destruct (isAssignType || _) eqn:E; simpl.
    + split; [split; eauto|]. destruct isAssignType; apply startsWith_append.
    + split; [split; [by intros [? ?] | done] | apply prefix_refl_eq].
Qed.

End factories_facts.

(** Stand-ins to run the factories on: a short table of time units, and
    numbers written in decimal when they are natural numbers. *)
Definition sample_timeUnits : list string :=
  ["year"; "years"; "month"; "months"; "day"; "days"; "hour"; "hours"].

Fixpoint decimal_digits (fuel : nat) (n : N) (acc : string) : string :=
  let acc' := String (ascii_of_N (48 + n mod 10)) acc in
  match fuel with
  | 0 => acc'
  | S fuel' => if (n / 10 =? 0)%N then acc' else decimal_digits fuel' (n / 10) acc'
  end.

Definition sample_numberToString (n : number) : string :=
  match n with
  | NaN => "NaN"
  | PosInf => "Infinity"
  | NegInf => "-Infinity"
  | Fin q =>
      match Qnum (this q), Qden (this q) with
      | Z0, _ => "0"
      | Zpos p, 1%positive => decimal_digits (Pos.size_nat p) (Npos p) EmptyString
      | _, _ => "?"
      end
  end.

Definition sample_getUnitDuration : number → list string :=
  Factories.getUnitDuration sample_numberToString sample_timeUnits.

Definition sample_getCompatibleLiterals
  : string → list string → option (list string) → list SuggestionRawDefinition :=
  Factories.getCompatibleLiterals sample_numberToString sample_timeUnits
    (list (string * string)) PurityFacts.sample_translate [].

Example sample_getUnitDuration_one :
  sample_getUnitDuration (JsNumber.of_Z 1) = ["1 year"; "1 month"; "1 day"; "1 hour"].
Proof. reflexivity. Qed.

Example sample_getUnitDuration_many :
  sample_getUnitDuration (JsNumber.of_Z 30)
    = ["30 years"; "30 months"; "30 days"; "30 hours"].
Proof. reflexivity. Qed.

Example sample_getUnitDuration_NaN :
  sample_getUnitDuration NaN = ["NaN year"; "NaN month"; "NaN day"; "NaN hour"].
Proof. reflexivity. Qed.

Example sample_literals_grok :
  label <$> sample_getCompatibleLiterals "grok" ["column"; "string"]
              (Some ["field"; "pattern"])
    = [dquote +:+ "%{WORD:firstWord}" +:+ dquote].
Proof. reflexivity. Qed.

Example sample_literals_dissect :
  label <$> sample_getCompatibleLiterals "dissect" ["column"; "string"]
              (Some ["field"; "pattern"])
    = [dquote +:+ "%{firstWord}" +:+ dquote].
Proof. reflexivity. Qed.

(** A list of names shorter than the list of types: the name looked up
    is [undefined], which holds no pattern. *)
Example sample_literals_short_names :
  label <$> sample_getCompatibleLiterals "grok" ["column"; "string"]
              (Some ["pattern"])
    = ["string"].
Proof. reflexivity. Qed.

Example sample_literals_no_names :
  sample_getCompatibleLiterals "grok" ["string"] None = [].
Proof. reflexivity. Qed.

Lemma getCompatibleLiterals_numbers_witness :
  includes ["number"] "time_literal" = false ∧
  includes ["number"] "time_literal_unit" = false ∧
  includes ["number"] "string" = false ∧
  label <$> sample_getCompatibleLiterals "limit" ["number"] None
    = if includes ["number"] "number" && String.eqb "limit" "limit"
      then ["10"; "100"; "1000"] else [].
Proof.
  split_and!; [reflexivity..|].
  apply (getCompatibleLiterals_numbers sample_numberToString sample_timeUnits
           (list (string * string)) PurityFacts.sample_translate []
           "limit" ["number"] None); reflexivity.
Defined.

End FactoriesFacts.

(** ** More on the authentications query *)

Module QueryMoreFacts.
Import JsString JsNumber Json Lodash Authentications QueryFacts.

Section cursor.
Variable createQueryFilterClauses : value → list value.
Variable reduceFields : list string → list (string * string) → list string.

Local Abbreviation buildQuery :=
  (Authentications.buildQuery createQueryFilterClauses reduceFields).

(** X17. The query of [buildQuery] carries the [after] key of the
    composite aggregation exactly when the cursor is a non-empty string;
    a cursor that is absent or the empty string gives the very query
    built without a cursor. *)
Theorem buildQuery_after_iff_cursor options :
  forallb wf (createQueryFilterClauses (filterQuery options)) = true →
  has_path (buildQuery options) after_path
    = cursor_truthy (cursor (pagination options)) ∧
  (cursor_truthy (cursor (pagination options)) = false →
   buildQuery options = buildQuery (without_cursor options)).
Proof.
  intros Hwf.
  destruct (cursor_truthy (cursor (pagination options))) eqn:Ht.
  - split; [|done]. unfold cursor_truthy in Ht.
    destruct (cursor (pagination options)) as [c|] eqn:Hc; [|done].
    exact (buildQuery_has_after _ _ options c Hc Ht).
  - rewrite (buildQuery_no_cursor _ _ options Ht). split; [reflexivity|].
    intros _. by rewrite buildQuery_without_cursor.
Qed.

End cursor.

Definition sample_options_empty_cursor : AuthorizationsRequestOptions := {|
  timerange := timerange sample_options;
  pagination := {| limit := JsNumber.of_Z 10; cursor := Some EmptyString |};
  fields := fields sample_options;
  filterQuery := filterQuery sample_options;
  sourceConfiguration := sourceConfiguration sample_options;
|}.

Lemma buildQuery_after_iff_cursor_witness :
  forallb wf
    (sample_createQueryFilterClauses (filterQuery sample_options_empty_cursor))
    = true ∧
  has_path (sample_buildQuery sample_options_empty_cursor) after_path
    = cursor_truthy (cursor (pagination sample_options_empty_cursor)) ∧
  (cursor_truthy (cursor (pagination sample_options_empty_cursor)) = false →
   sample_buildQuery sample_options_empty_cursor
     = sample_buildQuery (without_cursor sample_options_empty_cursor)).
Proof.
  split; [reflexivity|].
  apply (buildQuery_after_iff_cursor sample_createQueryFilterClauses
           sample_reduceFields sample_options_empty_cursor).
  reflexivity.
Defined.

End QueryMoreFacts.

(** ** The template selector of the create-case form *)

Module TemplateSelector.

Section selector.

(** [CasesConfigurationUITemplate['caseFields']] *)
Variable CaseFields : Type.

Record Template := {
  key : string;
  name : string;
  caseFields : CaseFields;
}.

Record EuiSelectOption := {
  text : string;
  value : string;
}.

(** What the change handler acts on: the [selectedTemplate] of the
    component state, and the calls made to [onTemplateChange], oldest
    first. *)
Record State := {
  selectedTemplate : option string;
  reported : list CaseFields;
}.

(** [templates.map((template) => ({ text: template.name, value:
    template.key }))] *)
Definition options (templates : list Template) : list EuiSelectOption :=
  (fun template => {| text := name template; value := key template |})
    <$> templates.

(** [onChange(e)], with [target] for [e.target.value]. *)
Definition onChange (templates : list Template) (target : string)
    (st : State) : State :=
  match List.find (fun template => String.eqb (key template) target) templates with
  | Some selectedTemplated =>
      {| selectedTemplate := Some (key selectedTemplated);
         reported := reported st ++ [caseFields selectedTemplated] |}
  | None => st
  end.

Lemma find_key_Some templates target t :
  List.find (fun template => String.eqb (key template) target) templates = Some t →
  t ∈ templates ∧ key t = target.
Proof.
  intros H. apply find_some in H as [Hin Hk]. split.
  - by apply list_elem_of_In.
  - by apply String.eqb_eq.
Qed.

Lemma find_key_None templates target :
  target ∉ key <$> templates →
  List.find (fun template => String.eqb (key template) target) templates = None.
Proof.
  induction templates as [|t l IH]; simpl; [done|].
  intros H. apply not_elem_of_cons in H as [Hne H].
  destruct (String.eqb (key t) target) eqn:E; [|by apply IH].
  apply String.eqb_eq in E. congruence.
Qed.

Lemma find_key_elem templates t :
  t ∈ templates →
  ∃ t', List.find (fun template => String.eqb (key template) (key t)) templates
          = Some t'.
Proof.
  induction templates as [|t0 l IH]; intros Hin; [by apply elem_of_nil in Hin|].
  simpl. destruct (String.eqb (key t0) (key t)) eqn:E; [eauto|].
  apply elem_of_cons in Hin as [->|Hin]; [|by apply IH].
  by rewrite String.eqb_refl in E.
Qed.

Lemma find_key_NoDup templates t :
  NoDup (key <$> templates) → t ∈ templates →
  List.find (fun template => String.eqb (key template) (key t)) templates = Some t.
Proof.
  induction templates as [|t0 l IH]; intros Hnd Hin; [by apply elem_of_nil in Hin|].
  simpl in *. apply NoDup_cons in Hnd as [Hk Hnd].
  apply elem_of_cons in Hin as [->|Hin].
  - by rewrite String.eqb_refl.
  - destruct (String.eqb (key t0) (key t)) eqn:E; [|by apply IH].
    apply String.eqb_eq in E. exfalso. apply Hk. rewrite E.
    by apply list_elem_of_fmap_2.
Qed.

(** [find] answers the first template with the key: none before it has
    that key. *)
Lemma find_key_first templates target t :
  List.find (fun template => String.eqb (key template) target) templates = Some t →
  ∃ before after,
    templates = before ++ t :: after ∧ key t = target ∧
    target ∉ key <$> before.
Proof.
  induction templates as [|t0 l IH]; simpl; [done|].
  destruct (String.eqb (key t0) target) eqn:E.
  - intros [= ->]. apply String.eqb_eq in E.
    exists [], l. split_and!; [done..|]. apply not_elem_of_nil.
  - intros Hf. destruct (IH Hf) as (before & after & -> & Hk & Hno).
    exists (t0 :: before), after. split_and!; [done..|].
    simpl. apply not_elem_of_cons. split; [|done].
    apply String.eqb_neq in E. congruence.
Qed.

(** X18. Choosing any option offered by the selector selects the key of
    that option and reports the case fields of the first template of the
    list with that key: no template before it has the key.  When keys
    are distinct it is the template the option was made from.  A value
    that is no template key changes nothing and reports nothing. *)
Theorem onChange_offered templates st :
  (∀ o, o ∈ options templates →
        ∃ before t after,
          templates = before ++ t :: after ∧
          key t = value o ∧
          (value o ∉ key <$> before) ∧
          onChange templates (value o) st
            = {| selectedTemplate := Some (value o);
                 reported := reported st ++ [caseFields t] |}) ∧
  (NoDup (key <$> templates) →
   ∀ t, t ∈ templates →
        onChange templates (key t) st
          = {| selectedTemplate := Some (key t);
               reported := reported st ++ [caseFields t] |}) ∧
  (∀ target, target ∉ key <$> templates → onChange templates target st = st).
Proof.
  split_and!.
  - intros o Ho. unfold options in Ho.
    apply list_elem_of_fmap in Ho as (t & -> & Ht). simpl.
    destruct (find_key_elem templates t Ht) as [t' Hf].
    destruct (find_key_first _ _ _ Hf) as (before & after & Heq & Hk & Hno).
    exists before, t', after. split_and!; [done..|].
    unfold onChange. by rewrite Hf, Hk.
  - intros Hnd t Ht. unfold onChange. by rewrite (find_key_NoDup templates t Hnd Ht).
  - intros target Hno. unfold onChange. by rewrite find_key_None.
Qed.

End selector.

Example onChange_duplicate_key :
  let first := {| key := "k1"; name := "First"; caseFields := 1 |} in
  let second := {| key := "k1"; name := "Second"; caseFields := 2 |} in
  onChange nat [first; second] "k1" {| selectedTemplate := None; reported := [] |}
    = {| selectedTemplate := Some "k1"; reported := [1] |}.
Proof. reflexivity. Qed.

End TemplateSelector.

(** ** Array schemas: [arrayOfStringsSchema], [keyMetricSchema] *)

Module ArraySchema.
Import JsString JsNumber Json Zod EntitySchema EntitySchemaMore MetricSchema
  MetricSchemaFacts.

(** The index of an element in the path of an issue, in decimal. *)
Fixpoint index_digits (fuel n : nat) (acc : string) : string :=
  let acc' := String (ascii_of_nat (48 + n mod 10)) acc in
  match fuel with
  | 0 => acc'
  | S fuel' => if Nat.eqb (n / 10) 0 then acc' else index_digits fuel' (n / 10) acc'
  end.

Definition index_key (i : nat) : string := index_digits i i EmptyString.

(** The elements of an array parsed one after the other from index [i]
    on: every element is parsed, the issues of all of them are kept
    under their index, and the array is valid when every element is. *)
Fixpoint parse_items {A} (s : schema A) (i : nat) (items : list value)
  : outcome (list A) :=
  match items with
  | [] => Parsed []
  | x :: rest =>
      match s x with
      | Thrown m => Thrown m
      | r =>
          match parse_items s (S i) rest with
          | Thrown m => Thrown m
          | Issues l => Issues (issues_of (index_key i) r ++ l)
          | Parsed vs =>
              match r with
              | Parsed v => Parsed (v :: vs)
              | _ => Issues (issues_of (index_key i) r)
              end
          end
      end
  end.

(** [z.array(s)] *)
Definition z_array {A} (s : schema A) : schema (list A) := fun v =>
  match v with
  | JArr items => parse_items s 0 items
  | _ => Issues [builtin "invalid_type"]
  end.

Definition arrayOfStringsSchema : schema (list string) := z_array z_string.

Record KeyMetric := {
  key_metric_name : string;
  key_metric_metrics : list Metric;
  key_metric_equation : string;
}.

Section key_metric.
Variable toUpperCase : string → string.

Definition keyMetricSchema : schema KeyMetric := fun v =>
  match v with
  | JObj fields =>
      let n := z_string (get fields "name") in
      let m := z_array (metricSchema toUpperCase) (get fields "metrics") in
      let e := z_string (get fields "equation") in
      match n, m, e with
      | Parsed n', Parsed m', Parsed e' =>
          Parsed {| key_metric_name := n'; key_metric_metrics := m';
                    key_metric_equation := e' |}
      | _, _, _ =>
          Issues (issues_of "name" n ++ issues_of "metrics" m
                    ++ issues_of "equation" e)
      end
  | _ => Issues [builtin "invalid_type"]
  end.

End key_metric.

Example index_key_12 : index_key 12 = "12".
Proof. reflexivity. Qed.

Lemma parse_items_parsed {A} (s : schema A) items : ∀ i vs,
  parse_items s i items = Parsed vs ↔
  Forall2 (fun x v => s x = Parsed v) items vs.
Proof.
  induction items as [|x rest IH]; intros i vs; simpl.
  - split; [intros [= <-]; constructor | by intros ->%Forall2_nil_inv_l].
  - destruct (s x) as [v| |] eqn:Hx.
    + destruct (parse_items s (S i) rest) as [vs'| |] eqn:Hr.
      * split.
        -- intros [= <-]. constructor; [done | by apply (IH (S i))].
        -- intros H. apply Forall2_cons_inv_l in H as (v' & vs'' & Hv & Hvs & ->).
           apply (IH (S i)) in Hvs. congruence.
      * split; [done|]. intros H.
        apply Forall2_cons_inv_l in H as (v' & vs'' & Hv & Hvs & ->).
        apply (IH (S i)) in Hvs. congruence.
      * split; [done|]. intros H.
        apply Forall2_cons_inv_l in H as (v' & vs'' & Hv & Hvs & ->).
        apply (IH (S i)) in Hvs. congruence.
    + split.
      * by destruct (parse_items s (S i) rest).
      * intros H. apply Forall2_cons_inv_l in H as (v' & vs'' & Hv & _ & ->).
        congruence.
    + split; [done|]. intros H.
      apply Forall2_cons_inv_l in H as (v' & vs'' & Hv & _ & ->). congruence.
Qed.

(** X19. [arrayOfStringsSchema] accepts exactly the arrays whose elements
    are all strings, and returns these strings in order; the empty array
    is accepted. *)
Theorem arrayOfStringsSchema_accepts_exactly v l :
  arrayOfStringsSchema v = Parsed l ↔ v = JArr (JStr <$> l).
Proof.
  unfold arrayOfStringsSchema, z_array.
  destruct v as [| | | | |items|]; try (split; done).
  rewrite parse_items_parsed. split.
  - intros H. f_equal. induction H as [|x v xs vs Hx _ IH]; simpl; [done|].
    apply z_string_parsed in Hx as ->. by rewrite IH.
  - intros [= ->]. induction l as [|s l IH]; simpl; constructor; done.
Qed.

Section key_metric_facts.
Variable toUpperCase : string → string.

(** X20. [keyMetricSchema] accepts exactly the objects whose [name] and
    [equation] are strings and whose [metrics] is an array of which
    every element is accepted by [metricSchema]; the parsed metrics are
    the parsed elements, as many and in the same order.  An empty array
    of metrics and an empty equation are accepted. *)
Theorem keyMetricSchema_accepts_exactly v k :
  keyMetricSchema toUpperCase v = Parsed k ↔
  ∃ fields items,
    v = JObj fields ∧
    get fields "name" = JStr (key_metric_name k) ∧
    get fields "metrics" = JArr items ∧
    Forall2 (fun x m => metricSchema toUpperCase x = Parsed m)
      items (key_metric_metrics k) ∧
    get fields "equation" = JStr (key_metric_equation k).
Proof.
  unfold keyMetricSchema. split.
  - destruct v as [| | | | | |fields]; try done.
    destruct (z_string (get fields "name")) as [n| |] eqn:Hn;
      destruct (z_array (metricSchema toUpperCase) (get fields "metrics"))
        as [ms| |] eqn:Hm;
      destruct (z_string (get fields "equation")) as [e| |] eqn:He;
      cbv zeta iota beta; try done.
    intros [= <-]. simpl.
    apply z_string_parsed in Hn, He.
    unfold z_array in Hm.
    destruct (get fields "metrics") as [| | | | |items|] eqn:Hg; try done.
    apply parse_items_parsed in Hm.
    by exists fields, items.
  - intros (fields & items & -> & Hn & Hm & Hall & He).
    rewrite Hn, Hm, He. simpl.
    rewrite (proj2 (parse_items_parsed _ items 0 _) Hall).
    by destruct k.
Qed.

End key_metric_facts.

Example keyMetricSchema_sample :
  keyMetricSchema AutocompleteFacts.sample_toUpperCase
    (JObj [("name", JStr "rate");
           ("metrics", JArr [
              JObj [("name", JStr "a"); ("aggregation", JStr "doc_count")];
              JObj [("name", JStr "b"); ("aggregation", JStr "sum");
                    ("field", JStr "bytes")]]);
           ("equation", JStr "B / A")])
  = Parsed {| key_metric_name := "rate";
              key_metric_metrics := [
                DocCount {| doc_count_name := "A"; doc_count_filter := None |};
                Basic {| basic_name := "B"; basic_aggregation := agg_sum;
                         basic_field := "bytes"; basic_filter := None |}];
              key_metric_equation := "B / A" |}.
Proof. reflexivity. Qed.

Example keyMetricSchema_bad_element :
  keyMetricSchema AutocompleteFacts.sample_toUpperCase
    (JObj [("name", JStr "rate");
           ("metrics", JArr [
              JObj [("name", JStr "a"); ("aggregation", JStr "doc_count")];
              JObj [("name", JStr "b"); ("aggregation", JStr "median")]]);
           ("equation", JStr "B / A")])
  = Issues [under "metrics" (under "1" (builtin "invalid_union_discriminator"))].
Proof. reflexivity. Qed.

End ArraySchema.
